(** * rag_learn: the blog question-answering pipeline and the patient store

    A shallow embedding of [blog_rag/rag.py], [blog_rag/api.py] and
    [patient_system/db.py].  Python [str] values are [string]s (character
    lists through [list_ascii_of_string]), Python lists are [list]s,
    [os.environ] is a [gmap string string], exceptions are the [Raise]
    branch of [result], and similarity scores are rationals (the scores
    of the vector store are finite floats). *)

From Stdlib Require Import QArith Ascii.
From stdpp Require Import gmap strings list sorting.
From Equations Require Import Equations.
Local Close Scope Q_scope.

(** ** Exceptions and fallible computations *)

Inductive exn : Type :=
  | KeyError (key : string)
  | TypeError
  | IntegrityError
  | InterfaceError
  | OverflowError
  | RemoteError (what : string).

Inductive result (A : Type) : Type :=
  | Ok (a : A)
  | Raise (e : exn).
Arguments Ok {A} a.
Arguments Raise {A} e.

Global Instance result_ret : MRet result := λ A a, Ok a.
Global Instance result_bind : MBind result := λ A B k r,
  match r with
  | Ok a => k a
  | Raise e => Raise e
  end.

(** ** Documents *)

(** A langchain [Document]: its text and the [source] entry of its
    metadata (the URL it was loaded from). *)
Record Document : Type := mkDocument {
  page_content : string;
  source : string
}.

Global Instance Document_eq_dec : EqDecision Document.
Proof. solve_decision. Defined.

(** ** Chunker *)

(** [RecursiveCharacterTextSplitter(chunk_size=1000, chunk_overlap=200)] *)
Definition chunk_size : nat := 1000.
Definition chunk_overlap : nat := 200.

Lemma chunk_overlap_lt_size : chunk_overlap < chunk_size.
Proof. unfold chunk_overlap, chunk_size. lia. Qed.

Section Window.
Context {A : Type}.
Variables (size overlap : nat).
Hypothesis overlap_lt_size : overlap < size.

(** Modelled from the spec: the text splitter is the third-party
    [RecursiveCharacterTextSplitter], whose code is not part of the
    repository.  The spec's algorithm: a window of [size] characters is
    placed at the start of the text and slides forward by
    [size - overlap] characters per step, until it no longer covers
    unseen text, that is, until the previous window reached the end of
    the text.  [start] is the position of the current window. *)
Equations? windows (t : list A) (start : nat) : list (list A)
  by wf (length t - start) lt :=
  windows t start with decide (start + size < length t) => {
    | left _ := take size (drop start t) :: windows t (start + (size - overlap));
    | right _ := [take size (drop start t)] }.
Proof. lia. Qed.


End Window.

(** The characters of a Python string. *)
Definition chars (s : string) : list ascii := String.list_ascii_of_string s.

(** [text_splitter.split_text]: the windows of a text, as strings. *)
Definition split_text (text : string) : list string :=
  String.string_of_list_ascii <$>
    windows chunk_size chunk_overlap chunk_overlap_lt_size (chars text) 0.

(** The Segments of one Document: each inherits the parent's metadata. *)
Definition split_document (d : Document) : list Document :=
  (λ chunk, mkDocument chunk (source d)) <$> split_text (page_content d).

(** [text_splitter.split_documents]: every Document is split on its own,
    the Segments are listed in document order. *)
Definition split_documents (docs : list Document) : list Document :=
  docs ≫= split_document.

(** ** Embedding Index *)

(** [stexn S A]: a computation that reads and writes a state [S] and
    returns an [A] or raises. *)
Definition stexn (S A : Type) : Type := S → result A * S.

Global Instance stexn_ret {S} : MRet (stexn S) := λ A a s, (Ok a, s).
Global Instance stexn_bind {S} : MBind (stexn S) := λ A B k m s,
  match m s with
  | (Ok a, s') => k a s'
  | (Raise e, s') => (Raise e, s')
  end.

Definition lift_result {S A} (r : result A) : stexn S A := λ s, (r, s).

(** The similarity threshold of [search]: [score > 0.5]. *)
Definition threshold : Q := 1 # 2.

Definition Qgtb (x y : Q) : bool := negb (Qle_bool x y).

Section Index.
Context {vector : Type}.
Variable similarity : vector → vector → Q.

(** One stored (vector, Segment) pair. *)
Record IndexEntry : Type := mkEntry {
  entry_vector : vector;
  entry_segment : Document
}.

(** Descending order on scored results. *)
Definition score_ge (a b : Document * Q) : Prop := (b.2 <= a.2)%Q.

#[local] Instance score_ge_dec : RelDecision score_ge.
Proof.
  intros a b. unfold score_ge.
  destruct (Qlt_le_dec a.2 b.2) as [Hlt|Hle].
  - right. by apply Qlt_not_le.
  - by left.
Defined.

(** Modelled from the spec: the vector store is the third-party
    [InMemoryVectorStore], whose code is not part of the repository.
    The spec's search: the similarity of the query vector against every
    stored vector, the [k] entries with the highest score, descending. *)
Definition similarity_search_by_vector
    (index : list IndexEntry) (qv : vector) (k : nat) : list (Document * Q) :=
  take k (merge_sort score_ge
            ((λ e, (entry_segment e, similarity qv (entry_vector e))) <$> index)).

End Index.

Arguments IndexEntry : clear implicits.
Arguments mkEntry {vector} _ _.

(** ** rag.py *)

Module rag.

Definition newline : string := String "010"%char "".

Definition BASE_URL : string := "https://www.noobscience.in".
Definition DEFAULT_PROMPT_TEMPLATE : string :=
  "Answer the following question to a user {question} " +:+ newline +:+
  "with the following context {context}".

(** The remote services and libraries the pipeline talks to.  The
    embedding and generation clients are built from the API key, which is
    whatever [os.environ.get] returned. *)
Record Providers : Type := {
  vector : Type;
  (** [requests.get] and [BeautifulSoup]: the [href]s of the
      [a.underline] anchors of the page at a URL, in page order *)
  underline_hrefs : string → result (list string);
  (** [WebBaseLoader]: the text of the page at a URL *)
  page_text : string → result string;
  (** [GoogleGenerativeAIEmbeddings(model=..., google_api_key=key)]:
      building the embedding client, which may refuse the key *)
  embeddings_client : option string → result ();
  (** [embed_documents] and [embed_query] of that client *)
  embed : option string → string → result vector;
  similarity : vector → vector → Q;
  (** [PromptTemplate.from_template(template)]: parsing the template *)
  parse_template : string → result ();
  (** [invoke(variables)] of the parsed template *)
  format_prompt : string → gmap string string → result string;
  (** [GoogleGenerativeAI(model=..., api_key=key)]: building the
      generation client, which may refuse the key *)
  llm_client : option string → result ();
  (** [invoke] of that client, with the response cache and whatever else
      the model's answer depends on as its state *)
  llm_state : Type;
  llm_invoke : option string → string → stexn llm_state string
}.

Section Pipeline.
Context (P : Providers).

Definition parse_blogurls : result (list string) :=
  underline_hrefs P (BASE_URL +:+ "/blog").

Definition get_blog_documents (urls : list string) : result (list Document) :=
  mapM (λ url, text ← page_text P url; mret (mkDocument text url)) urls.

(** The fields of a [CustomGeminiRAG] object; [embeddings] and [llm] are
    the clients for [google_api_key]. *)
Record CustomGeminiRAG : Type := mkRAG {
  google_api_key : option string;
  urls : list string;
  docs : list Document;
  vector_store : list (IndexEntry (vector P));
  prompt : string
}.

(** [InMemoryVectorStore(embeddings).add_documents]: one embedding per
    Segment. *)
Definition add_documents (key : option string) (segments : list Document)
    : result (list (IndexEntry (vector P))) :=
  mapM (λ seg, v ← embed P key (page_content seg); mret (mkEntry v seg)) segments.

Definition prepare_vector_store (key : option string) (docs : list Document)
    : result (list (IndexEntry (vector P))) :=
  let all_splits := split_documents docs in
  add_documents key all_splits.

(** [CustomGeminiRAG.__init__]: an exception of any step ends it. *)
Definition init (key : option string) (template : string) : result CustomGeminiRAG :=
  hrefs ← parse_blogurls;
  let urls := (λ a, BASE_URL +:+ a) <$> drop 1 hrefs in
  docs ← get_blog_documents urls;
  _ ← embeddings_client P key;
  store ← prepare_vector_store key docs;
  _ ← llm_client P key;
  _ ← parse_template P template;
  mret (mkRAG key urls docs store template).

(** [vector_store.similarity_search_with_score(query=query, k=k)] *)
Definition similarity_search_with_score
    (self : CustomGeminiRAG) (query : string) (k : nat) : result (list (Document * Q)) :=
  qv ← embed P (google_api_key self) query;
  mret (similarity_search_by_vector (similarity P) (vector_store self) qv k).

Definition search (self : CustomGeminiRAG) (query : string) : result (list Document) :=
  results ← similarity_search_with_score self query 1;
  mret (fst <$> List.filter (λ a, Qgtb a.2 threshold) results).

(** What [ask] acts on: the console and the generation model. *)
Record World : Type := mkWorld {
  stdout : list string;
  llm : llm_state P
}.

Definition print (line : string) : stexn World () :=
  λ w, (Ok (), mkWorld (stdout w ++ [line]) (llm w)).

Definition invoke_llm (key : option string) (final_prompt : string) : stexn World string :=
  λ w, let '(r, l) := llm_invoke P key final_prompt (llm w) in (r, mkWorld (stdout w) l).

Definition ask (self : CustomGeminiRAG) (question : string) : stexn World string :=
  rel_docs ← lift_result (search self question);
  let context := String.concat (newline +:+ newline) (page_content <$> rel_docs) in
  _ ← print ("Using content of " +:+ String.concat "," (source <$> rel_docs) +:+ " ");
  final_prompt ← lift_result
    (format_prompt P (prompt self) {[ "question" := question; "context" := context ]});
  response ← invoke_llm (google_api_key self) final_prompt;
  mret response.

End Pipeline.

Arguments google_api_key {P} _.
Arguments urls {P} _.
Arguments docs {P} _.
Arguments vector_store {P} _.
Arguments prompt {P} _.
Arguments stdout {P} _.
Arguments llm {P} _.
Arguments mkWorld {P} _ _.
Arguments mkRAG {P} _ _ _ _ _.

End rag.

(** ** api.py *)

Module api.

Section Service.
Context (P : rag.Providers).

(** How the module-level start-up code of [api.py] ends: [exit(1)], an
    uncaught exception, or the service object that the request handlers
    use.  [out] is what was printed. *)
Inductive startup : Type :=
  | Exited (code : Z) (out : list string)
  | Crashed (e : exn) (out : list string)
  | Serving (service : rag.CustomGeminiRAG P) (out : list string).

(** [os.environ.get(name)]: [None] when the variable is not set. *)
Definition environ_get (environ : gmap string string) (name : string) : option string :=
  environ !! name.

(** The start-up code, from [os.environ.get] to the end of indexing. *)
Definition start (environ : gmap string string) : startup :=
  let google_api_key := environ_get environ "GOOGLE_GEMINI_API_KEY" in
  if decide (google_api_key = Some "") then
    Exited 1 ["Google Gemini API KEY is missing"]
  else
    match rag.init P google_api_key rag.DEFAULT_PROMPT_TEMPLATE with
    | Raise e => Crashed e ["Starting Blog indexing process"]
    | Ok service =>
        Serving service ["Starting Blog indexing process"; "Done with indexing process"]
    end.

(** [POST /search]: the [url] and [content] of every retrieved Segment. *)
Definition search (service : rag.CustomGeminiRAG P) (query : string)
    : result (list (string * string)) :=
  relavent_context ← rag.search P service query;
  mret ((λ doc, (source doc, page_content doc)) <$> (relavent_context : list Document)).

(** [POST /ask] *)
Definition ask (service : rag.CustomGeminiRAG P) (question : string)
    : stexn (rag.World P) string :=
  rag.ask P service question.

End Service.

Arguments Exited {P} _ _.
Arguments Crashed {P} _ _.
Arguments Serving {P} _ _.

End api.

(** ** db.py *)

Module db.

(** Python values that a [patient_data] dictionary can hold.  A [dict]
    is the list of its items in insertion order. *)
#[warnings="-register-all"]
Inductive value : Type :=
  | VNone
  | VInt (z : Z)
  | VStr (s : string)
  | VList (items : list value)
  | VDict (entries : list (string * value)).

Definition dict : Type := list (string * value).

Fixpoint dict_lookup (d : dict) (key : string) : option value :=
  match d with
  | [] => None
  | (k, v) :: d' => if decide (k = key) then Some v else dict_lookup d' key
  end.

(** [d[key]] on a dictionary *)
Definition getitem (d : dict) (key : string) : result value :=
  match dict_lookup d key with
  | Some v => Ok v
  | None => Raise (KeyError key)
  end.

(** [d.get(key, [])] *)
Definition get_or_empty (d : dict) (key : string) : value :=
  default (VList []) (dict_lookup d key).

(** [v[key]] for a string key on any value: only a dictionary has one. *)
Definition subscript (v : value) (key : string) : result value :=
  match v with
  | VDict d => getitem d key
  | _ => Raise TypeError
  end.

(** [for x in v]: the items of a list, the characters of a string, the
    keys of a dictionary; [None] and integers are not iterable. *)
Definition iterate (v : value) : result (list value) :=
  match v with
  | VList items => Ok items
  | VStr s => Ok ((λ c, VStr (String c "")) <$> chars s)
  | VDict d => Ok ((λ kv, VStr kv.1) <$> d)
  | VNone | VInt _ => Raise TypeError
  end.

(** The three [INSERT] statements of [create_patient]. *)
Inductive statement : Type :=
  | INSERT_INTO_patients
  | INSERT_INTO_problems
  | INSERT_INTO_conditions.

(** The SQL engine: a statement with its bound parameters either changes
    the database and gives the row id of the inserted row, or raises and
    changes nothing. *)
Class Engine (DB : Type) : Type :=
  execute_sql : statement → list value → DB → result (Z * DB).

Section Store.
Context {DB : Type} `{!Engine DB}.

(** A [sqlite3] connection: the committed database and, while a
    transaction is open, the database as the transaction sees it. *)
Record connection : Type := mkConnection {
  committed : DB;
  pending : option DB
}.

Definition view (conn : connection) : DB :=
  default (committed conn) (pending conn).

(** [cursor.execute(sql, params)] followed by [cursor.lastrowid]: the
    statement runs inside the open transaction, which is begun when there
    is none. *)
Definition execute (sql : statement) (params : list value) : stexn connection Z :=
  λ conn,
    match execute_sql sql params (view conn) with
    | Ok (lastrowid, db') => (Ok lastrowid, mkConnection (committed conn) (Some db'))
    | Raise e => (Raise e, conn)
    end.

Definition commit : stexn connection () :=
  λ conn, (Ok (), mkConnection (view conn) None).

Definition rollback (conn : connection) : connection :=
  mkConnection (committed conn) None.

Fixpoint for_each {A} (body : A → stexn connection ()) (l : list A)
    : stexn connection () :=
  match l with
  | [] => mret ()
  | x :: l' => _ ← body x; for_each body l'
  end.

(** The [INSERT]s of [create_patient], up to the [commit]. *)
Definition insert_patient (patient_data : dict) : stexn connection Z :=
  name ← lift_result (getitem patient_data "name");
  age ← lift_result (getitem patient_data "age");
  gender ← lift_result (getitem patient_data "gender");
  address ← lift_result (getitem patient_data "address");
  identity ← lift_result (getitem patient_data "identity");
  phone ← lift_result (getitem patient_data "phone");
  description ← lift_result (getitem patient_data "description");
  recommended_doctor ← lift_result (getitem patient_data "recommended_doctor");
  patient_id ← execute INSERT_INTO_patients
    [name; age; gender; address; identity; phone; description; recommended_doctor];
  problems ← lift_result (iterate (get_or_empty patient_data "problems"));
  _ ← for_each (λ problem,
        name ← lift_result (subscript problem "name");
        duration ← lift_result (subscript problem "duration");
        description ← lift_result (subscript problem "description");
        _ ← execute INSERT_INTO_problems [VInt patient_id; name; duration; description];
        mret ()) problems;
  conditions ← lift_result (iterate (get_or_empty patient_data "conditions"));
  _ ← for_each (λ condition,
        _ ← execute INSERT_INTO_conditions [VInt patient_id; condition];
        mret ()) conditions;
  mret patient_id.

(** The body of the [try] block. *)
Definition create_patient_try (patient_data : dict) : stexn connection Z :=
  patient_id ← insert_patient patient_data;
  _ ← commit;
  mret patient_id.

(** [create_patient]: [Some patient_id], or [None] after a rollback. *)
Definition create_patient (patient_data : dict) (conn : connection)
    : option Z * connection :=
  match create_patient_try patient_data conn with
  | (Ok patient_id, conn') => (Some patient_id, conn')
  | (Raise e, conn') => (None, rollback conn')
  end.

(** An action that leaves the committed database as it is. *)
Definition keeps_committed {A} (action : stexn connection A) : Prop :=
  ∀ conn r conn', action conn = (r, conn') → committed conn' = committed conn.

End Store.

Arguments connection : clear implicits.
Arguments mkConnection {DB} _ _.

(** *** A small SQL engine

    The three tables as lists of rows and the [AUTOINCREMENT] counters of
    [sqlite_sequence]. *)
Record tables : Type := mkTables {
  patients : list (Z * list value);
  problems : list (Z * list value);
  conditions : list (Z * list value);
  patients_seq : Z;
  problems_seq : Z;
  conditions_seq : Z
}.

(** What [sqlite3] can bind: [None], 64-bit integers and strings. *)
Definition bind_param (v : value) : result value :=
  match v with
  | VNone | VStr _ => Ok v
  | VInt z => if decide (- 2 ^ 63 ≤ z < 2 ^ 63)%Z then Ok v else Raise OverflowError
  | VList _ | VDict _ => Raise InterfaceError
  end.

Definition tables_execute (sql : statement) (params : list value) (t : tables)
    : result (Z * tables) :=
  row ← mapM bind_param params;
  match sql with
  | INSERT_INTO_patients =>
      match row with
      | VNone :: _ => Raise IntegrityError
      | _ =>
          let id := (patients_seq t + 1)%Z in
          Ok (id, mkTables (patients t ++ [(id, row)]) (problems t) (conditions t)
                    id (problems_seq t) (conditions_seq t))
      end
  | INSERT_INTO_problems =>
      let id := (problems_seq t + 1)%Z in
      Ok (id, mkTables (patients t) (problems t ++ [(id, row)]) (conditions t)
                (patients_seq t) id (conditions_seq t))
  | INSERT_INTO_conditions =>
      let id := (conditions_seq t + 1)%Z in
      Ok (id, mkTables (patients t) (problems t) (conditions t ++ [(id, row)])
                (patients_seq t) (problems_seq t) id)
  end.

Definition empty_tables : tables := mkTables [] [] [] 0 0 0.

#[global] Instance tables_engine : Engine tables := tables_execute.

(** A patient with two problems and one condition, and the same patient
    with a second problem that is not a dictionary. *)
Definition sample_patient (problems : list value) : dict :=
  [("name", VStr "Ann"); ("age", VInt 41); ("gender", VStr "F");
   ("address", VStr "1 Main St"); ("identity", VStr "A-1"); ("phone", VStr "555");
   ("description", VNone); ("recommended_doctor", VStr "Dr. Who");
   ("problems", VList problems); ("conditions", VList [VStr "asthma"])].

Definition sample_problem (name : string) : value :=
  VDict [("name", VStr name); ("duration", VStr "2 weeks"); ("description", VNone)].

Definition good_patient : dict :=
  sample_patient [sample_problem "cough"; sample_problem "fever"].

Definition bad_patient : dict :=
  sample_patient [sample_problem "cough"; VInt 7].

End db.

(** ** db.py: reading and deleting patients

    [select_patient], [select_all_patients] and [delete_patient] on the
    small SQL engine.  The [patient_id] they take is an [int], as their
    docstrings say. *)

Module patient_db.

(** [row[k]] for a row fetched with [SELECT *]: the [id] column first,
    then the columns in the order of [CREATE TABLE]; a column that was
    never written reads as [NULL]. *)
Definition cell (row : Z * list db.value) (k : nat) : db.value :=
  match k with
  | 0 => db.VInt row.1
  | S k' => default db.VNone (row.2 !! k')
  end.

(** [WHERE patient_id = ?] on a row of [problems] or [conditions]. *)
Definition references (id : Z) (row : Z * list db.value) : bool :=
  match cell row 1 with
  | db.VInt patient_id => bool_decide (patient_id = id)
  | _ => false
  end.

(** Binding the integer [patient_id] to the [?] of a statement. *)
Definition bind_id (patient_id : Z) : result Z :=
  _ ← db.bind_param (db.VInt patient_id); mret patient_id.

(** [SELECT * FROM patients WHERE id = ?] and [fetchone()] *)
Definition SELECT_patient (id : Z) (t : db.tables) : option (Z * list db.value) :=
  List.find (λ row, bool_decide (row.1 = id)) (db.patients t).

(** [SELECT name, duration, description FROM problems WHERE patient_id = ?]
    and [fetchall()] *)
Definition SELECT_problems (id : Z) (t : db.tables)
    : list (db.value * db.value * db.value) :=
  (λ row, (cell row 2, cell row 3, cell row 4)) <$>
    List.filter (references id) (db.problems t).

(** [SELECT condition FROM conditions WHERE patient_id = ?] and
    [fetchall()] *)
Definition SELECT_conditions (id : Z) (t : db.tables) : list db.value :=
  (λ row, cell row 2) <$> List.filter (references id) (db.conditions t).

(** [SELECT id FROM patients] and [fetchall()] *)
Definition SELECT_ids (t : db.tables) : list Z := fst <$> db.patients t.

(** [DELETE FROM problems WHERE patient_id = ?] *)
Definition DELETE_FROM_problems (id : Z) (t : db.tables) : db.tables :=
  db.mkTables (db.patients t)
    (List.filter (λ row, negb (references id row)) (db.problems t))
    (db.conditions t) (db.patients_seq t) (db.problems_seq t) (db.conditions_seq t).

(** [DELETE FROM conditions WHERE patient_id = ?] *)
Definition DELETE_FROM_conditions (id : Z) (t : db.tables) : db.tables :=
  db.mkTables (db.patients t) (db.problems t)
    (List.filter (λ row, negb (references id row)) (db.conditions t))
    (db.patients_seq t) (db.problems_seq t) (db.conditions_seq t).

(** [DELETE FROM patients WHERE id = ?] *)
Definition DELETE_FROM_patients (id : Z) (t : db.tables) : db.tables :=
  db.mkTables
    (List.filter (λ row, negb (bool_decide (row.1 = id))) (db.patients t))
    (db.problems t) (db.conditions t)
    (db.patients_seq t) (db.problems_seq t) (db.conditions_seq t).

(** The body of the [try] block of [select_patient].  A [SELECT] reads
    what the connection sees and opens no transaction. *)
Definition select_patient_try (patient_id : Z) (conn : db.connection db.tables)
    : result (option db.dict) :=
  id ← bind_id patient_id;
  match SELECT_patient id (db.view conn) with
  | Some patient_row =>
      let problem_rows := SELECT_problems id (db.view conn) in
      let condition_rows := SELECT_conditions id (db.view conn) in
      mret (Some
        [("id", cell patient_row 0);
         ("name", cell patient_row 1);
         ("age", cell patient_row 2);
         ("gender", cell patient_row 3);
         ("address", cell patient_row 4);
         ("identity", cell patient_row 5);
         ("phone", cell patient_row 6);
         ("description", cell patient_row 7);
         ("recommended_doctor", cell patient_row 8);
         ("problems",
          db.VList ((λ row : db.value * db.value * db.value,
                       db.VDict [("name", row.1.1); ("duration", row.1.2);
                                 ("description", row.2)]) <$> problem_rows));
         ("conditions", db.VList condition_rows)])
  | None => mret None
  end.

(** [select_patient]: the patient's dictionary, or [None] when there is
    no such patient or the query raised. *)
Definition select_patient (patient_id : Z) (conn : db.connection db.tables)
    : option db.dict :=
  match select_patient_try patient_id conn with
  | Ok patient_data => patient_data
  | Raise e => None
  end.

(** [if patient_data:] a dictionary counts as true when it is not empty. *)
Definition truthy (patient_data : option db.dict) : bool :=
  match patient_data with
  | Some (_ :: _) => true
  | _ => false
  end.

(** [select_all_patients]: the ids first, then [select_patient] for each
    of them. *)
Definition select_all_patients (conn : db.connection db.tables) : list db.dict :=
  let patient_ids := SELECT_ids (db.view conn) in
  patient_ids ≫= λ patient_id,
    let patient_data := select_patient patient_id conn in
    if truthy patient_data then option_list patient_data else [].

(** [cursor.execute("DELETE ...", (patient_id,))]: runs inside the open
    transaction, which is begun when there is none. *)
Definition execute_delete (sql : Z → db.tables → db.tables) (patient_id : Z)
    : stexn (db.connection db.tables) () :=
  λ conn,
    match bind_id patient_id with
    | Ok id => (Ok (), db.mkConnection (db.committed conn) (Some (sql id (db.view conn))))
    | Raise e => (Raise e, conn)
    end.

(** The body of the [try] block of [delete_patient]. *)
Definition delete_patient_try (patient_id : Z) : stexn (db.connection db.tables) bool :=
  _ ← execute_delete DELETE_FROM_problems patient_id;
  _ ← execute_delete DELETE_FROM_conditions patient_id;
  _ ← execute_delete DELETE_FROM_patients patient_id;
  _ ← db.commit;
  mret true.

(** [delete_patient]: [True], or [False] after a rollback. *)
Definition delete_patient (patient_id : Z) (conn : db.connection db.tables)
    : bool * db.connection db.tables :=
  match delete_patient_try patient_id conn with
  | (Ok done, conn') => (done, conn')
  | (Raise e, conn') => (false, db.rollback conn')
  end.

(** What the tables of a [PatientDatabase] look like: every patient id
    was handed out by the [AUTOINCREMENT] counter, no id occurs twice,
    and every problem and every condition belongs to a patient that is
    in the table. *)
Definition tables_ok (t : db.tables) : Prop :=
  (0 ≤ db.patients_seq t)%Z ∧
  Forall (λ row, (0 < row.1 ≤ db.patients_seq t)%Z) (db.patients t) ∧
  NoDup (SELECT_ids t) ∧
  Forall (λ row, ∃ id, references id row = true ∧ id ∈ SELECT_ids t) (db.problems t) ∧
  Forall (λ row, ∃ id, references id row = true ∧ id ∈ SELECT_ids t) (db.conditions t).

(** The connections a [PatientDatabase] on a new file goes through. *)
Inductive reachable : db.connection db.tables → Prop :=
  | reach_new : reachable (db.mkConnection db.empty_tables None)
  | reach_create patient_data conn :
      reachable conn → reachable (db.create_patient patient_data conn).2
  | reach_delete patient_id conn :
      reachable conn → reachable (delete_patient patient_id conn).2.

(** The columns that [create_patient] fills from [patient_data] and from
    each of its problems. *)
Definition patient_columns : list string :=
  ["name"; "age"; "gender"; "address"; "identity"; "phone"; "description";
   "recommended_doctor"].

Definition problem_columns : list string := ["name"; "duration"; "description"].

(** [inserted patient_data id t t']: the tables [t'] are the tables [t]
    with the rows of [patient_data] added under the patient id [id]. *)
Definition inserted (patient_data : db.dict) (id : Z) (t t' : db.tables) : Prop :=
  ∃ fields problems conditions problem_rows condition_rows,
    mapM (db.getitem patient_data) patient_columns = Ok fields ∧
    db.iterate (db.get_or_empty patient_data "problems") = Ok problems ∧
    db.iterate (db.get_or_empty patient_data "conditions") = Ok conditions ∧
    Forall2 (λ problem row, ∃ values,
               mapM (db.subscript problem) problem_columns = Ok values ∧
               row.2 = db.VInt id :: values) problems problem_rows ∧
    Forall2 (λ condition row, row.2 = [db.VInt id; condition])
      conditions condition_rows ∧
    id = (db.patients_seq t + 1)%Z ∧
    db.patients t' = db.patients t ++ [(id, fields)] ∧
    db.problems t' = db.problems t ++ problem_rows ∧
    db.conditions t' = db.conditions t ++ condition_rows ∧
    db.patients_seq t' = id.

(** A value that a [TEXT] column stores as it is. *)
Definition is_text (v : db.value) : bool :=
  match v with
  | db.VNone | db.VStr _ => true
  | _ => false
  end.

(** A value that an [INTEGER] column stores as it is. *)
Definition is_integer (v : db.value) : bool :=
  match v with
  | db.VNone | db.VInt _ => true
  | _ => false
  end.

(** [problem] as [select_patient] gives it back. *)
Definition problem_record (problem : db.value) : result db.value :=
  name ← db.subscript problem "name";
  duration ← db.subscript problem "duration";
  description ← db.subscript problem "description";
  mret (db.VDict [("name", name); ("duration", duration); ("description", description)]).

(** [patient_data] as [select_patient] gives it back for the id
    [patient_id]. *)
Definition patient_record (patient_data : db.dict) (patient_id : Z) : result db.dict :=
  name ← db.getitem patient_data "name";
  age ← db.getitem patient_data "age";
  gender ← db.getitem patient_data "gender";
  address ← db.getitem patient_data "address";
  identity ← db.getitem patient_data "identity";
  phone ← db.getitem patient_data "phone";
  description ← db.getitem patient_data "description";
  recommended_doctor ← db.getitem patient_data "recommended_doctor";
  problems ← db.iterate (db.get_or_empty patient_data "problems");
  problem_records ← mapM problem_record problems;
  conditions ← db.iterate (db.get_or_empty patient_data "conditions");
  mret [("id", db.VInt patient_id); ("name", name); ("age", age); ("gender", gender);
        ("address", address); ("identity", identity); ("phone", phone);
        ("description", description); ("recommended_doctor", recommended_doctor);
        ("problems", db.VList problem_records);
        ("conditions", db.VList conditions)].

(** Every value of [patient_data] has the type of the column it goes to,
    so that the engine stores it unconverted. *)
Definition column_typed (patient_data : db.dict) : bool :=
  match patient_record patient_data 0 with
  | Ok record =>
      forallb (λ kv : string * db.value,
        if decide (kv.1 = "id") then true
        else if decide (kv.1 = "age") then is_integer kv.2
        else if decide (kv.1 = "problems") then
          match kv.2 with
          | db.VList items =>
              forallb (λ item,
                match item with
                | db.VDict fields => forallb (λ f : string * db.value, is_text f.2) fields
                | _ => false
                end) items
          | _ => false
          end
        else if decide (kv.1 = "conditions") then
          match kv.2 with
          | db.VList items => forallb is_text items
          | _ => false
          end
        else is_text kv.2) record
  | Raise _ => true
  end.

End patient_db.

(** ** Sample inputs *)

(** A text of [n] letters, running through the alphabet. *)
Definition sample_text (n : nat) : string :=
  String.string_of_list_ascii ((λ i, ascii_of_nat (97 + i mod 26)) <$> seq 0 n).

Definition sample_article : Document :=
  mkDocument (sample_text 1900) "https://www.noobscience.in/blog/second".

Definition sample_note : Document :=
  mkDocument "Python is great for scripting." "https://www.noobscience.in/blog/python".

(** The vectors of the sample providers are the embedded texts
    themselves; the one question about Python scores 0.72 against every
    Segment, every other query 0.3.  The listing page links three
    articles, the model answers with the prompt it was given, and its
    state counts the calls. *)
Definition sample_format (template : string) (variables : gmap string string)
    : result string :=
  match variables !! "question", variables !! "context" with
  | Some question, Some context =>
      Ok ("Answer the following question to a user " +:+ question +:+ " " +:+
          rag.newline +:+ "with the following context " +:+ context)
  | None, _ => Raise (KeyError "question")
  | _, None => Raise (KeyError "context")
  end.

Definition sample_providers : rag.Providers := {|
  rag.vector := string;
  rag.underline_hrefs := λ _, Ok ["/blog/first"; "/blog/python"; "/blog/third"];
  rag.page_text := λ url,
    Ok (if decide (url = "https://www.noobscience.in/blog/python")
        then "Python is great for scripting." else "Nothing to see here.");
  rag.embeddings_client := λ _, Ok ();
  rag.embed := λ _ text, Ok text;
  rag.similarity := λ qv _,
    if decide (qv = "What is Python good for?") then (72 # 100)%Q else (3 # 10)%Q;
  rag.parse_template := λ _, Ok ();
  rag.format_prompt := sample_format;
  rag.llm_client := λ _, Ok ();
  rag.llm_state := nat;
  rag.llm_invoke := λ _ final_prompt calls, (Ok ("Model says: " +:+ final_prompt), S calls)
|}.

(** A service whose index holds the single Segment of [sample_note]. *)
Definition sample_service : rag.CustomGeminiRAG sample_providers :=
  rag.mkRAG (P := sample_providers) None [source sample_note] [sample_note]
    [mkEntry (page_content sample_note : rag.vector sample_providers) sample_note]
    rag.DEFAULT_PROMPT_TEMPLATE.

(** Nothing printed yet, no call to the model yet. *)
Definition sample_world : rag.World sample_providers :=
  rag.mkWorld (P := sample_providers) [] (0 : nat).

(** Providers whose clients cannot be built without a key and whose
    embedding service is unreachable, and a service object that talks to
    them. *)
Definition offline_providers : rag.Providers := {|
  rag.vector := string;
  rag.underline_hrefs := λ _, Ok ["/blog/first"];
  rag.page_text := λ _, Ok "Nothing to see here.";
  rag.embeddings_client := λ key,
    match key with
    | Some _ => Ok ()
    | None => Raise (RemoteError "API key missing")
    end;
  rag.embed := λ _ _, Raise (RemoteError "embedding");
  rag.similarity := λ _ _, (3 # 10)%Q;
  rag.parse_template := λ _, Ok ();
  rag.format_prompt := sample_format;
  rag.llm_client := λ _, Ok ();
  rag.llm_state := nat;
  rag.llm_invoke := λ _ final_prompt calls, (Ok ("Model says: " +:+ final_prompt), S calls)
|}.

Definition offline_service : rag.CustomGeminiRAG offline_providers :=
  rag.mkRAG (P := offline_providers) None [] [] [] rag.DEFAULT_PROMPT_TEMPLATE.

Definition offline_world : rag.World offline_providers :=
  rag.mkWorld (P := offline_providers) [] (0 : nat).

(** * Properties *)

(** ** Strings as character lists *)


Lemma chars_of_string l : chars (String.string_of_list_ascii l) = l.
Proof. apply String.list_ascii_of_string_of_list_ascii. Qed.



(** ** The sliding window *)

Section WindowFacts.
Context {A : Type}.
Variables (size overlap : nat).
Hypothesis overlap_lt_size : overlap < size.

#[local] Abbreviation windows := (windows size overlap overlap_lt_size).
#[local] Abbreviation step := (size - overlap).

Lemma windows_step (t : list A) start :
  windows t start =
    take size (drop start t) ::
      (if decide (start + size < length t) then windows t (start + step) else []).
Proof.
  rewrite windows_equation_1. unfold windows_clause_1.
  destruct (decide (start + size < length t)); reflexivity.
Qed.

(** The [i]-th window starts [i] steps into the text, and it exists only
    when the window before it stopped short of the end of the text. *)
Lemma windows_lookup (t : list A) i : ∀ start w,
  windows t start !! i = Some w →
    w = take size (drop (start + i * step) t) ∧
    (0 < i → start + (i - 1) * step + size < length t).
Proof.
  induction i as [|i IH]; intros start w; rewrite windows_step; simpl.
  - intros [= <-]. split; [f_equal; f_equal; lia | lia].
  - destruct (decide (start + size < length t)) as [Hlt|Hge]; [|done].
    intros Hw. destruct (IH _ _ Hw) as [-> Hprev]. split.
    + f_equal. f_equal. lia.
    + intros _. destruct i as [|i]; simpl in *; [lia|].
      specialize (Hprev ltac:(lia)).
      replace (i - 0) with i in Hprev by lia. lia.
Qed.

Lemma windows_adjacent (t : list A) i a b :
  windows t 0 !! i = Some a →
  windows t 0 !! S i = Some b →
  a = take size (drop (i * step) t) ∧
  b = take size (drop (S i * step) t) ∧
  length a = size ∧
  overlap < length b ∧
  drop step a = take overlap b.
Proof.
  intros Ha Hb.
  apply windows_lookup in Ha as [-> _].
  apply windows_lookup in Hb as [-> Hfull].
  specialize (Hfull ltac:(lia)).
  replace (S i - 1) with i in Hfull by lia.
  change (0 + ?n) with n in *.
  assert (S i * step = i * step + step) as -> by lia.
  repeat split.
  - rewrite length_take, length_drop. lia.
  - rewrite length_take, length_drop. lia.
  - rewrite skipn_firstn_comm, drop_drop, take_take.
    f_equal; lia.
Qed.





End WindowFacts.

(** ** The Chunker on Documents *)

Lemma split_document_lookup d i seg :
  split_document d !! i = Some seg →
  source seg = source d ∧
  windows chunk_size chunk_overlap chunk_overlap_lt_size
    (chars (page_content d)) 0 !! i = Some (chars (page_content seg)).
Proof.
  unfold split_document, split_text. rewrite !list_lookup_fmap.
  destruct (windows _ _ _ _ _ !! i) as [w|] eqn:Hw; simpl; [|done].
  intros [= <-]. simpl. by rewrite chars_of_string.
Qed.


(** C2: two adjacent Segments of a Document are the windows at positions
    [800 * i] and [800 * (i + 1)] of its text; the earlier one is a full
    window of 1000 characters, the later one is longer than 200 characters,
    and the last 200 characters of the earlier one are the first 200 of
    the later one. *)
Theorem adjacent_segments_overlap (d a b : Document) (i : nat) :
  split_document d !! i = Some a →
  split_document d !! S i = Some b →
  chars (page_content a) =
    take chunk_size (drop (i * (chunk_size - chunk_overlap)) (chars (page_content d))) ∧
  chars (page_content b) =
    take chunk_size (drop (S i * (chunk_size - chunk_overlap)) (chars (page_content d))) ∧
  length (chars (page_content a)) = chunk_size ∧
  chunk_overlap < length (chars (page_content b)) ∧
  drop (chunk_size - chunk_overlap) (chars (page_content a)) =
    take chunk_overlap (chars (page_content b)).
Proof.
  intros Ha Hb.
  apply split_document_lookup in Ha as [_ Ha].
  apply split_document_lookup in Hb as [_ Hb].
  exact (windows_adjacent _ _ _ _ _ _ _ Ha Hb).
Qed.

Lemma adjacent_segments_overlap_witness :
  ∃ a b,
    split_document sample_article !! 0 = Some a ∧
    split_document sample_article !! 1 = Some b ∧
    drop (chunk_size - chunk_overlap) (chars (page_content a)) =
      take chunk_overlap (chars (page_content b)).
Proof.
  eexists _, _. split; [vm_compute; reflexivity|]. split; [vm_compute; reflexivity|].
  eapply (adjacent_segments_overlap sample_article _ _ 0); vm_compute; reflexivity.
Defined.




(** ** The Embedding Index *)

Section IndexFacts.
Context {vector : Type}.
Variable similarity : vector → vector → Q.

#[local] Instance score_ge_trans : Transitive score_ge.
Proof. intros a b c Hab Hbc. unfold score_ge in *. by eapply Qle_trans. Qed.

#[local] Instance score_ge_total : Total score_ge.
Proof.
  intros a b. unfold score_ge.
  destruct (Qlt_le_dec a.2 b.2) as [Hlt|Hle]; [right|left]; [|done].
  by apply Qlt_le_weak.
Qed.





Lemma similarity_search_stored (index : list (IndexEntry vector)) qv k a :
  a ∈ similarity_search_by_vector similarity index qv k →
  a.1 ∈ entry_segment <$> index.
Proof.
  unfold similarity_search_by_vector. intros Ha.
  eapply elem_of_sublist in Ha; [|apply sublist_take].
  rewrite merge_sort_Permutation in Ha.
  apply list_elem_of_fmap in Ha as (e & -> & He). simpl.
  apply list_elem_of_fmap. eauto.
Qed.

End IndexFacts.

(** ** Fallible computations *)

Lemma bind_Ok {A B} (r : result A) (k : A → result B) b :
  r ≫= k = Ok b → ∃ a, r = Ok a ∧ k a = Ok b.
Proof. destruct r as [a|e]; [eauto|done]. Qed.

Lemma mapM_Ok {A B} (f : A → result B) (l : list A) (k : list B) :
  mapM f l = Ok k → Forall2 (λ x y, f x = Ok y) l k.
Proof.
  revert k. induction l as [|x l IH]; intros k; simpl.
  - intros [= <-]. constructor.
  - intros Hk. apply bind_Ok in Hk as (y & Hy & Hk).
    apply bind_Ok in Hk as (k' & Hk' & [= <-]).
    constructor; auto.
Qed.


Lemma Qgtb_le x y : Qgtb x y = false ↔ (x <= y)%Q.
Proof. unfold Qgtb. by rewrite negb_false_iff, Qle_bool_iff. Qed.

Lemma filter_below_threshold (results : list (Document * Q)) :
  (∀ a, a ∈ results → (a.2 <= threshold)%Q) →
  List.filter (λ a, Qgtb a.2 threshold) results = [].
Proof.
  induction results as [|a results IH]; intros Hlow; [done|]. simpl.
  rewrite (proj2 (Qgtb_le _ _)) by (apply Hlow; left).
  apply IH. intros b Hb. apply Hlow. by right.
Qed.

(** ** Retrieval *)

Section RetrievalFacts.
Context (P : rag.Providers).
Implicit Types (self : rag.CustomGeminiRAG P) (query : string).

Lemma similarity_search_with_score_inv self query k results :
  rag.similarity_search_with_score P self query k = Ok results →
  ∃ qv, rag.embed P (rag.google_api_key self) query = Ok qv ∧
        results = similarity_search_by_vector (rag.similarity P)
                    (rag.vector_store self) qv k.
Proof.
  unfold rag.similarity_search_with_score. intros H.
  apply bind_Ok in H as (qv & Hqv & [= <-]). eauto.
Qed.



Lemma search_run self query results :
  rag.similarity_search_with_score P self query 1 = Ok results →
  rag.search P self query =
    Ok (fst <$> List.filter (λ a, Qgtb a.2 threshold) results).
Proof. intros H. unfold rag.search. by rewrite H. Qed.


End RetrievalFacts.



(** ** Answering *)

Section AnswerFacts.
Context (P : rag.Providers).
Implicit Types (self : rag.CustomGeminiRAG P) (question : string) (w : rag.World P).

(** The [context] and the console line that [ask] builds from the
    retrieved Segments. *)
#[local] Abbreviation context_of rel_docs :=
  (String.concat (rag.newline +:+ rag.newline) (page_content <$> rel_docs)).
#[local] Abbreviation using_line rel_docs :=
  ("Using content of " +:+ String.concat "," (source <$> rel_docs) +:+ " ").

(** One run of [ask], step by step. *)
Lemma ask_run self question w :
  rag.ask P self question w =
    match rag.search P self question with
    | Raise e => (Raise e, w)
    | Ok rel_docs =>
        let w1 := rag.mkWorld (rag.stdout w ++ [using_line rel_docs]) (rag.llm w) in
        match rag.format_prompt P (rag.prompt self)
                {[ "question" := question; "context" := context_of rel_docs ]} with
        | Raise e => (Raise e, w1)
        | Ok final_prompt =>
            let '(r, l) := rag.llm_invoke P (rag.google_api_key self)
                             final_prompt (rag.llm w) in
            (r, rag.mkWorld (rag.stdout w1) l)
        end
    end.
Proof.
  unfold rag.ask, mbind, stexn_bind, lift_result, rag.print, rag.invoke_llm.
  destruct (rag.search P self question) as [rel_docs|e]; [|done]. simpl.
  destruct (rag.format_prompt _ _ _) as [final_prompt|e]; [|done]. simpl.
  by destruct (rag.llm_invoke _ _ _ _) as [[response|e] l].
Qed.

(** C6: [ask] joins the texts of the retrieved Segments with blank lines,
    in retrieval order (the empty string for no Segment, the text itself
    for one), fills the prompt template with the question and that
    context, gives the filled prompt to the model, and returns the
    model's response unchanged; the console gets the one line naming the
    sources. *)
Theorem ask_returns_model_response self question w rel_docs final_prompt response l' :
  rag.search P self question = Ok rel_docs →
  rag.format_prompt P (rag.prompt self)
    {[ "question" := question; "context" := context_of rel_docs ]} = Ok final_prompt →
  rag.llm_invoke P (rag.google_api_key self) final_prompt (rag.llm w) = (Ok response, l') →
  rag.ask P self question w =
    (Ok response, rag.mkWorld (rag.stdout w ++ [using_line rel_docs]) l') ∧
  (rel_docs = [] → context_of rel_docs = "") ∧
  (∀ seg, rel_docs = [seg] → context_of rel_docs = page_content seg) ∧
  (∀ seg rest, rest ≠ [] → rel_docs = seg :: rest →
     context_of rel_docs =
       page_content seg +:+ (rag.newline +:+ rag.newline) +:+ context_of rest).
Proof.
  intros Hsearch Hprompt Hllm. split; [|split; [|split]].
  - rewrite ask_run, Hsearch. simpl. by rewrite Hprompt, Hllm.
  - by intros ->.
  - by intros seg ->.
  - intros seg rest Hrest ->. by destruct rest.
Qed.

(** C7: when no entry of the index search clears the threshold, the
    retrieval result is empty and [ask] fills the template with the empty
    context; the model's response to that prompt is what [ask] returns. *)
Theorem ask_with_empty_retrieval self question w results final_prompt response l' :
  rag.similarity_search_with_score P self question 1 = Ok results →
  (∀ a, a ∈ results → (a.2 <= threshold)%Q) →
  rag.format_prompt P (rag.prompt self)
    {[ "question" := question; "context" := "" ]} = Ok final_prompt →
  rag.llm_invoke P (rag.google_api_key self) final_prompt (rag.llm w) = (Ok response, l') →
  rag.search P self question = Ok [] ∧
  rag.ask P self question w =
    (Ok response, rag.mkWorld (rag.stdout w ++ ["Using content of  "]) l').
Proof.
  intros Hresults Hlow Hprompt Hllm.
  assert (rag.search P self question = Ok []) as Hsearch.
  { rewrite (search_run _ _ _ _ Hresults).
    by rewrite filter_below_threshold. }
  split; [done|].
  rewrite ask_run, Hsearch. simpl. by rewrite Hprompt, Hllm.
Qed.

End AnswerFacts.

Lemma ask_returns_model_response_witness :
  ∃ response w',
    rag.ask sample_providers sample_service "What is Python good for?"
      sample_world = (Ok response, w').
Proof.
  eexists _, _.
  refine (proj1 (ask_returns_model_response sample_providers sample_service
                   "What is Python good for?" sample_world _ _ _ _ _ _ _)).
  - vm_compute. reflexivity.
  - vm_compute. reflexivity.
  - vm_compute. reflexivity.
Defined.

Lemma ask_with_empty_retrieval_witness :
  rag.search sample_providers sample_service "Tell me about cats" = Ok [] ∧
  ∃ response w',
    rag.ask sample_providers sample_service "Tell me about cats"
      sample_world = (Ok response, w').
Proof.
  assert (∀ a : Document * Q, a ∈ [(sample_note, (3 # 10)%Q)] → (a.2 <= threshold)%Q)
    as Hlow.
  { intros a Ha. apply list_elem_of_singleton in Ha as ->. vm_compute. discriminate. }
  pose proof (ask_with_empty_retrieval sample_providers sample_service
                "Tell me about cats" sample_world
                [(sample_note, (3 # 10)%Q)] _ _ _ eq_refl Hlow eq_refl eq_refl)
    as [Hsearch Hask].
  split; [exact Hsearch|]. eexists _, _. exact Hask.
Defined.

(** ** Indexing *)

Section IndexingFacts.
Context (P : rag.Providers).
Implicit Types (self : rag.CustomGeminiRAG P) (key : option string).

Lemma init_inv key template self :
  rag.init P key template = Ok self →
  ∃ hrefs docs store,
    rag.parse_blogurls P = Ok hrefs ∧
    rag.get_blog_documents P ((λ a, rag.BASE_URL +:+ a) <$> drop 1 hrefs) = Ok docs ∧
    rag.prepare_vector_store P key docs = Ok store ∧
    self = rag.mkRAG key ((λ a, rag.BASE_URL +:+ a) <$> drop 1 hrefs) docs store template.
Proof.
  unfold rag.init. intros H.
  apply bind_Ok in H as (hrefs & Hhrefs & H).
  apply bind_Ok in H as (docs & Hdocs & H).
  apply bind_Ok in H as ([] & _ & H).
  apply bind_Ok in H as (store & Hstore & H).
  apply bind_Ok in H as ([] & _ & H).
  apply bind_Ok in H as ([] & _ & [= <-]).
  by exists hrefs, docs, store.
Qed.

(** A service object exists only when both clients and the template
    could be built. *)
Lemma init_clients key template self :
  rag.init P key template = Ok self →
  rag.embeddings_client P key = Ok () ∧
  rag.llm_client P key = Ok () ∧
  rag.parse_template P template = Ok ().
Proof.
  unfold rag.init. intros H.
  apply bind_Ok in H as (hrefs & _ & H).
  apply bind_Ok in H as (docs & _ & H).
  apply bind_Ok in H as ([] & Hembeddings & H).
  apply bind_Ok in H as (store & _ & H).
  apply bind_Ok in H as ([] & Hllm & H).
  by apply bind_Ok in H as ([] & Htemplate & _).
Qed.

(** Every fetched Document carries the URL it was fetched from. *)
Lemma get_blog_documents_sources urls docs :
  rag.get_blog_documents P urls = Ok docs → source <$> docs = urls.
Proof.
  unfold rag.get_blog_documents. intros H. apply mapM_Ok in H.
  induction H as [|url d urls docs Hd _ IH]; [done|].
  apply bind_Ok in Hd as (text & _ & [= <-]). csimpl. by rewrite IH.
Qed.

(** The index holds exactly the Segments it was given. *)
Lemma add_documents_segments key segments store :
  rag.add_documents P key segments = Ok store →
  entry_segment <$> store = segments.
Proof.
  unfold rag.add_documents. intros H. apply mapM_Ok in H.
  induction H as [|seg e segments store He _ IH]; [done|].
  apply bind_Ok in He as (v & _ & [= <-]). csimpl. by rewrite IH.
Qed.

Lemma split_documents_source docs seg :
  seg ∈ split_documents docs → source seg ∈ source <$> docs.
Proof.
  unfold split_documents. intros Hseg.
  apply list_elem_of_bind in Hseg as (d & Hseg & Hd).
  apply list_elem_of_lookup in Hseg as [i Hi].
  apply split_document_lookup in Hi as [-> _].
  by apply list_elem_of_fmap_2.
Qed.

(** [search] only returns Segments that are stored in the index. *)
Lemma search_results_stored self query segs seg :
  rag.search P self query = Ok segs → seg ∈ segs →
  seg ∈ entry_segment <$> rag.vector_store self.
Proof.
  unfold rag.search. intros H Hseg.
  apply bind_Ok in H as (results & Hresults & [= <-]).
  apply similarity_search_with_score_inv in Hresults as (qv & _ & ->).
  apply list_elem_of_fmap in Hseg as (a & -> & Ha).
  apply list_elem_of_In, filter_In in Ha as [Ha _].
  apply list_elem_of_In in Ha. by eapply similarity_search_stored.
Qed.

(** C10: the URLs that are fetched and indexed are the crawled hrefs from
    position 1 on, each prefixed with the base URL; every retrieved
    Segment comes from one of them, so no Segment of the first link's
    page is ever retrieved, unless the same link occurs again later on
    the listing page. *)
Theorem first_crawled_url_is_dropped key template hrefs self :
  rag.parse_blogurls P = Ok hrefs →
  rag.init P key template = Ok self →
  rag.urls self = (λ a, rag.BASE_URL +:+ a) <$> drop 1 hrefs ∧
  source <$> rag.docs self = rag.urls self ∧
  (∀ query segs seg,
     rag.search P self query = Ok segs → seg ∈ segs →
     ∃ a, a ∈ drop 1 hrefs ∧ source seg = rag.BASE_URL +:+ a) ∧
  (∀ first rest, hrefs = first :: rest → first ∉ rest →
     ∀ query segs seg,
       rag.search P self query = Ok segs → seg ∈ segs →
       source seg ≠ rag.BASE_URL +:+ first).
Proof.
  intros Hhrefs Hinit.
  apply init_inv in Hinit as (hrefs' & docs & store & Hhrefs' & Hdocs & Hstore & ->).
  rewrite Hhrefs in Hhrefs'. injection Hhrefs' as <-. simpl.
  apply get_blog_documents_sources in Hdocs.
  assert (∀ query segs seg,
            rag.search P (rag.mkRAG key ((λ a, rag.BASE_URL +:+ a) <$> drop 1 hrefs)
                            docs store template) query = Ok segs →
            seg ∈ segs → ∃ a, a ∈ drop 1 hrefs ∧ source seg = rag.BASE_URL +:+ a)
    as Hfrom.
  { intros query segs seg Hsearch Hseg.
    pose proof (search_results_stored _ _ _ _ Hsearch Hseg) as Hstored. simpl in Hstored.
    unfold rag.prepare_vector_store in Hstore.
    rewrite (add_documents_segments _ _ _ Hstore) in Hstored.
    apply split_documents_source in Hstored. rewrite Hdocs in Hstored.
    apply list_elem_of_fmap in Hstored as (a & -> & Ha). eauto. }
  repeat split; [done..|].
  intros first rest -> Hfirst query segs seg Hsearch Hseg Hsrc.
  destruct (Hfrom _ _ _ Hsearch Hseg) as (a & Ha & Hsrc').
  rewrite Hsrc in Hsrc'. apply (inj (String.app rag.BASE_URL)) in Hsrc' as <-.
  by apply Hfirst.
Qed.

End IndexingFacts.

Lemma first_crawled_url_is_dropped_witness :
  ∃ self,
    rag.init sample_providers None rag.DEFAULT_PROMPT_TEMPLATE = Ok self ∧
    rag.urls self = ["https://www.noobscience.in/blog/python";
                     "https://www.noobscience.in/blog/third"].
Proof.
  eexists. split; [vm_compute; reflexivity|].
  refine (proj1 (first_crawled_url_is_dropped sample_providers None
                   rag.DEFAULT_PROMPT_TEMPLATE
                   ["/blog/first"; "/blog/python"; "/blog/third"] _ eq_refl _)).
  vm_compute. reflexivity.
Defined.

(** ** Start-up *)

Section StartupFacts.
Context (P : rag.Providers).

(** The guard of [api.py] fires when the variable is set to the empty
    string. *)
Lemma start_exits_on_empty_key (environ : gmap string string) :
  environ !! "GOOGLE_GEMINI_API_KEY" = Some "" →
  api.start P environ = api.Exited 1 ["Google Gemini API KEY is missing"].
Proof.
  intros Hkey. unfold api.start, api.environ_get. rewrite Hkey.
  by rewrite decide_True.
Qed.

(** With the variable not set at all, [os.environ.get] gives [None] and
    the guard of [api.py] does not fire: the start-up code goes on to
    build the service with the key [None] and ends as that ends, serving
    when every step succeeds and stopping with the exception otherwise.
    So it does not serve when one of the clients refuses the missing
    key. *)
Theorem unset_key_is_left_to_the_providers (environ : gmap string string) :
  environ !! "GOOGLE_GEMINI_API_KEY" = None →
  api.start P environ =
    match rag.init P None rag.DEFAULT_PROMPT_TEMPLATE with
    | Raise e => api.Crashed e ["Starting Blog indexing process"]
    | Ok service =>
        api.Serving service
          ["Starting Blog indexing process"; "Done with indexing process"]
    end ∧
  ((∃ e, rag.embeddings_client P None = Raise e) ∨
   (∃ e, rag.llm_client P None = Raise e) →
   ∀ service out, api.start P environ ≠ api.Serving service out).
Proof.
  intros Hkey.
  assert (api.start P environ =
            match rag.init P None rag.DEFAULT_PROMPT_TEMPLATE with
            | Raise e => api.Crashed e ["Starting Blog indexing process"]
            | Ok service =>
                api.Serving service
                  ["Starting Blog indexing process"; "Done with indexing process"]
            end) as Hstart.
  { unfold api.start, api.environ_get. rewrite Hkey. by rewrite decide_False. }
  split; [done|].
  intros Hrefused service out. rewrite Hstart.
  destruct (rag.init P None rag.DEFAULT_PROMPT_TEMPLATE) as [self|e] eqn:Hinit;
    [|done].
  apply init_clients in Hinit as (Hembeddings & Hllm & _).
  destruct Hrefused as [[e He]|[e He]]; congruence.
Qed.

End StartupFacts.

Lemma unset_key_is_left_to_the_providers_witness :
  api.start offline_providers ∅ =
    api.Crashed (RemoteError "API key missing") ["Starting Blog indexing process"].
Proof.
  refine (proj1 (unset_key_is_left_to_the_providers offline_providers ∅ _)).
  reflexivity.
Defined.

(** The same start-up with providers that accept any key, and with the
    variable set to the empty string. *)
Example start_without_key_serves :
  ∃ service,
    api.start sample_providers ∅ =
      api.Serving service
        ["Starting Blog indexing process"; "Done with indexing process"] ∧
    rag.google_api_key service = None.
Proof. eexists. split; vm_compute; reflexivity. Qed.

Example start_with_empty_key_exits :
  api.start sample_providers {[ "GOOGLE_GEMINI_API_KEY" := "" ]} =
    api.Exited 1 ["Google Gemini API KEY is missing"].
Proof. by apply start_exits_on_empty_key. Qed.

(** ** The patient store *)

Section StoreFacts.
Context {DB : Type} `{!db.Engine DB}.
Implicit Types (conn : db.connection DB) (patient_data : db.dict).

Lemma stexn_bind_Ok {S A B} (m : stexn S A) (k : A → stexn S B) s b s' :
  (m ≫= k) s = (Ok b, s') → ∃ a s1, m s = (Ok a, s1) ∧ k a s1 = (Ok b, s').
Proof.
  unfold mbind, stexn_bind. destruct (m s) as [[a|e] s1]; [eauto|done].
Qed.

Lemma keeps_ret {A} (a : A) : db.keeps_committed (DB := DB) (mret a).
Proof. by intros conn r conn' [= _ <-]. Qed.

Lemma keeps_lift {A} (r : result A) : db.keeps_committed (DB := DB) (lift_result r).
Proof. by intros conn r' conn' [= _ <-]. Qed.

Lemma keeps_bind {A B} (m : stexn (db.connection DB) A) (k : A → stexn _ B) :
  db.keeps_committed m → (∀ a, db.keeps_committed (k a)) →
  db.keeps_committed (m ≫= k).
Proof.
  intros Hm Hk conn r conn'. unfold mbind, stexn_bind.
  destruct (m conn) as [[a|e] conn1] eqn:Hrun.
  - intros Hrest. rewrite (Hk _ _ _ _ Hrest). eauto.
  - intros [= _ <-]. eauto.
Qed.

Lemma keeps_execute sql params : db.keeps_committed (db.execute sql params).
Proof.
  intros conn r conn'. unfold db.execute.
  destruct (db.execute_sql sql params (db.view conn)) as [[lastrowid db']|e];
    by intros [= _ <-].
Qed.

Lemma keeps_for_each {A} (body : A → stexn (db.connection DB) ()) l :
  (∀ x, db.keeps_committed (body x)) → db.keeps_committed (db.for_each body l).
Proof.
  intros Hbody. induction l as [|x l IH]; simpl.
  - apply keeps_ret.
  - apply keeps_bind; [apply Hbody | by intros _].
Qed.

Create HintDb keeps.
#[local] Hint Resolve keeps_ret keeps_lift keeps_execute : keeps.

(** No statement of [create_patient] before the [commit] touches the
    committed database. *)
Lemma insert_patient_keeps_committed patient_data :
  db.keeps_committed (db.insert_patient patient_data).
Proof.
  unfold db.insert_patient.
  repeat first
    [ apply keeps_for_each; intros ?
    | apply keeps_bind; [|intros ?]
    | solve [auto with keeps] ].
Qed.



End StoreFacts.

(** The second problem of [bad_patient] raises after the patient and the
    first problem were inserted: nothing of it stays. *)
Example create_patient_bad :
  db.insert_patient db.bad_patient (db.mkConnection db.empty_tables None) =
    (Raise TypeError,
     db.mkConnection db.empty_tables
       (Some (db.mkTables
          [(1%Z, [db.VStr "Ann"; db.VInt 41; db.VStr "F"; db.VStr "1 Main St";
                  db.VStr "A-1"; db.VStr "555"; db.VNone; db.VStr "Dr. Who"])]
          [(1%Z, [db.VInt 1; db.VStr "cough"; db.VStr "2 weeks"; db.VNone])]
          [] 1 1 0))) ∧
  db.create_patient db.bad_patient (db.mkConnection db.empty_tables None) =
    (None, db.mkConnection db.empty_tables None).
Proof. split; vm_compute; reflexivity. Qed.

Example create_patient_good :
  db.create_patient db.good_patient (db.mkConnection db.empty_tables None) =
    (Some 1%Z,
     db.mkConnection
       (db.mkTables
          [(1%Z, [db.VStr "Ann"; db.VInt 41; db.VStr "F"; db.VStr "1 Main St";
                  db.VStr "A-1"; db.VStr "555"; db.VNone; db.VStr "Dr. Who"])]
          [(1%Z, [db.VInt 1; db.VStr "cough"; db.VStr "2 weeks"; db.VNone]);
           (2%Z, [db.VInt 1; db.VStr "fever"; db.VStr "2 weeks"; db.VNone])]
          [(1%Z, [db.VInt 1; db.VStr "asthma"])]
          1 2 1)
       None).
Proof. vm_compute. reflexivity. Qed.

(** ** More on the pipeline *)

Lemma mapM_Raise {A B} (f : A → result B) (l : list A) e :
  mapM f l = Raise e → ∃ x, x ∈ l ∧ f x = Raise e.
Proof.
  induction l as [|x l IH]; simpl; [done|].
  destruct (f x) as [y|e'] eqn:Hx; simpl.
  - destruct (mapM f l) as [k|e'] eqn:Hl; simpl; [done|].
    intros [= ->]. destruct (IH eq_refl) as (x' & Hin & Hx').
    exists x'. split; [by right|done].
  - intros [= ->]. exists x. split; [by left|done].
Qed.

Section PipelineFacts.
Context (P : rag.Providers).
Implicit Types (self : rag.CustomGeminiRAG P) (key : option string).

Lemma fetch_Ok url d :
  (text ← rag.page_text P url; mret (mkDocument text url)) = Ok d →
  rag.page_text P url = Ok (page_content d) ∧ source d = url.
Proof. intros H. by apply bind_Ok in H as (text & -> & [= <-]). Qed.

(** [get_blog_documents] gives one Document per URL, in the order of the
    URLs, holding the text of the page and the URL as its source; when it
    raises instead, the exception is that of a page that could not be
    loaded, and no Document is returned at all. *)
Theorem get_blog_documents_all_or_nothing (urls : list string) :
  match rag.get_blog_documents P urls with
  | Ok docs =>
      Forall2 (λ url d, rag.page_text P url = Ok (page_content d) ∧ source d = url)
        urls docs
  | Raise e => ∃ url, url ∈ urls ∧ rag.page_text P url = Raise e
  end.
Proof.
  unfold rag.get_blog_documents.
  destruct (mapM _ urls) as [docs|e] eqn:Hrun.
  - apply mapM_Ok in Hrun. eapply Forall2_impl; [exact Hrun|].
    intros url d. apply fetch_Ok.
  - apply mapM_Raise in Hrun as (url & Hin & Hurl). exists url. split; [done|].
    destruct (rag.page_text P url) as [text|e']; by simplify_eq/=.
Qed.

(** A service that [api.py] serves was built completely: the key it uses
    is the value of the environment variable, which is not the empty
    string, it has one Document per URL and the index holds exactly the
    Segments of all of them, in order. *)
Theorem served_index_is_complete (environ : gmap string string) service out :
  api.start P environ = api.Serving service out →
  environ !! "GOOGLE_GEMINI_API_KEY" ≠ Some "" ∧
  rag.google_api_key service = environ !! "GOOGLE_GEMINI_API_KEY" ∧
  rag.prompt service = rag.DEFAULT_PROMPT_TEMPLATE ∧
  Forall2 (λ url d, rag.page_text P url = Ok (page_content d) ∧ source d = url)
    (rag.urls service) (rag.docs service) ∧
  entry_segment <$> rag.vector_store service = split_documents (rag.docs service).
Proof.
  unfold api.start, api.environ_get.
  destruct (decide (environ !! "GOOGLE_GEMINI_API_KEY" = Some "")) as [|Hkey]; [done|].
  destruct (rag.init P _ _) as [self|e] eqn:Hinit; [|done].
  intros [= <- _].
  apply init_inv in Hinit as (hrefs & docs & store & _ & Hdocs & Hstore & ->). simpl.
  repeat split; [done| |].
  - unfold rag.get_blog_documents in Hdocs. apply mapM_Ok in Hdocs.
    eapply Forall2_impl; [exact Hdocs|]. intros url d. apply fetch_Ok.
  - unfold rag.prepare_vector_store in Hstore.
    by apply add_documents_segments in Hstore.
Qed.

(** When the query cannot be embedded, the exception reaches the caller
    of [search], of the [/search] handler and of [ask] unchanged; [ask]
    prints nothing and does not call the model. *)
Theorem embedding_failure_propagates self query e :
  rag.embed P (rag.google_api_key self) query = Raise e →
  rag.search P self query = Raise e ∧
  api.search P self query = Raise e ∧
  ∀ w, rag.ask P self query w = (Raise e, w).
Proof.
  intros Hembed.
  assert (rag.search P self query = Raise e) as Hsearch.
  { unfold rag.search, rag.similarity_search_with_score. by rewrite Hembed. }
  repeat split.
  - done.
  - unfold api.search. by rewrite Hsearch.
  - intros w. by rewrite ask_run, Hsearch.
Qed.


End PipelineFacts.

Lemma served_index_is_complete_witness :
  ∃ service out,
    api.start sample_providers ∅ = api.Serving service out ∧
    entry_segment <$> rag.vector_store service = split_documents (rag.docs service).
Proof.
  eexists _, _. split; [vm_compute; reflexivity|].
  refine (proj2 (proj2 (proj2 (proj2
            (served_index_is_complete sample_providers ∅ _ _ _))))).
  vm_compute. reflexivity.
Defined.

Lemma embedding_failure_propagates_witness :
  rag.ask offline_providers offline_service "What is Python good for?" offline_world =
    (Raise (RemoteError "embedding"), offline_world).
Proof.
  refine (proj2 (proj2 (embedding_failure_propagates offline_providers offline_service
                          "What is Python good for?" _ _)) offline_world).
  reflexivity.
Defined.


(** ** The patient store on the small SQL engine *)

Lemma bind_param_Ok v v' : db.bind_param v = Ok v' → v' = v.
Proof.
  destruct v as [|z|s|items|entries]; simpl; try by intros [= <-].
  by destruct (decide _); intros [= <-].
Qed.

Lemma mapM_bind_param l l' : mapM db.bind_param l = Ok l' → l' = l.
Proof.
  intros Hl. apply mapM_Ok in Hl.
  induction Hl as [|v v' l l' Hv _ IH]; [done|].
  apply bind_param_Ok in Hv. by subst.
Qed.

Lemma stexn_lift_Ok {S A} (r : result A) (s s' : S) a :
  lift_result r s = (Ok a, s') → r = Ok a ∧ s' = s.
Proof. by intros [= -> <-]. Qed.

(** What one [INSERT] does to the connection. *)
Lemma execute_insert_Ok sql params conn id conn' :
  db.execute sql params conn = (Ok id, conn') →
  ∃ t', db.execute_sql sql params (db.view conn) = Ok (id, t') ∧
        conn' = db.mkConnection (db.committed conn) (Some t').
Proof.
  unfold db.execute.
  destruct (db.execute_sql sql params (db.view conn)) as [[lastrowid t']|e];
    [|done].
  intros [= <- <-]. eauto.
Qed.

Lemma insert_problem_Ok params t id t' :
  db.execute_sql db.INSERT_INTO_problems params t = Ok (id, t') →
  db.patients t' = db.patients t ∧
  db.problems t' = db.problems t ++ [(id, params)] ∧
  db.conditions t' = db.conditions t ∧
  db.patients_seq t' = db.patients_seq t.
Proof.
  unfold db.execute_sql, db.tables_engine, db.tables_execute. intros Hrun.
  apply bind_Ok in Hrun as (row & Hrow & [= <- <-]).
  apply mapM_bind_param in Hrow as ->. done.
Qed.

Lemma insert_condition_Ok params t id t' :
  db.execute_sql db.INSERT_INTO_conditions params t = Ok (id, t') →
  db.patients t' = db.patients t ∧
  db.problems t' = db.problems t ∧
  db.conditions t' = db.conditions t ++ [(id, params)] ∧
  db.patients_seq t' = db.patients_seq t.
Proof.
  unfold db.execute_sql, db.tables_engine, db.tables_execute. intros Hrun.
  apply bind_Ok in Hrun as (row & Hrow & [= <- <-]).
  apply mapM_bind_param in Hrow as ->. done.
Qed.

Lemma insert_patient_row_Ok params t id t' :
  db.execute_sql db.INSERT_INTO_patients params t = Ok (id, t') →
  id = (db.patients_seq t + 1)%Z ∧
  db.patients t' = db.patients t ++ [(id, params)] ∧
  db.problems t' = db.problems t ∧
  db.conditions t' = db.conditions t ∧
  db.patients_seq t' = id.
Proof.
  unfold db.execute_sql, db.tables_engine, db.tables_execute. intros Hrun.
  apply bind_Ok in Hrun as (row & Hrow & Hrun).
  apply mapM_bind_param in Hrow as ->.
  destruct params as [|[] ?]; by simplify_eq/=.
Qed.

(** The loop over the problems adds one row per problem to [problems]
    and nothing else. *)
Lemma problems_loop_Ok id problems : ∀ conn t conn',
  db.pending conn = Some t →
  db.for_each (λ problem,
      name ← lift_result (db.subscript problem "name");
      duration ← lift_result (db.subscript problem "duration");
      description ← lift_result (db.subscript problem "description");
      _ ← db.execute db.INSERT_INTO_problems
            [db.VInt id; name; duration; description];
      mret ()) problems conn = (Ok (), conn') →
  ∃ t' rows,
    conn' = db.mkConnection (db.committed conn) (Some t') ∧
    Forall2 (λ problem row, ∃ values,
               mapM (db.subscript problem) patient_db.problem_columns = Ok values ∧
               row.2 = db.VInt id :: values) problems rows ∧
    db.patients t' = db.patients t ∧
    db.problems t' = db.problems t ++ rows ∧
    db.conditions t' = db.conditions t ∧
    db.patients_seq t' = db.patients_seq t.
Proof.
  induction problems as [|problem problems IH]; intros conn t conn' Ht; simpl.
  - intros [= <-]. exists t, []. rewrite app_nil_r.
    destruct conn; simpl in *; subst. by repeat split.
  - intros Hrun.
    apply stexn_bind_Ok in Hrun. destruct Hrun as ([] & conn1 & Hstep & Hrest).
    apply stexn_bind_Ok in Hstep. destruct Hstep as (name & ? & [Hname ->]%stexn_lift_Ok & Hstep).
    apply stexn_bind_Ok in Hstep. destruct Hstep as (duration & ? & [Hduration ->]%stexn_lift_Ok & Hstep).
    apply stexn_bind_Ok in Hstep. destruct Hstep as (description & ? & [Hdescription ->]%stexn_lift_Ok & Hstep).
    apply stexn_bind_Ok in Hstep. destruct Hstep as (rowid & ? & Hinsert & [= <-]).
    apply execute_insert_Ok in Hinsert as (t1 & Hsql & ->).
    unfold db.view in Hsql. rewrite Ht in Hsql. simpl in Hsql.
    apply insert_problem_Ok in Hsql as (Hp1 & Hq1 & Hc1 & Hs1).
    destruct (IH (db.mkConnection (db.committed conn) (Some t1)) t1 _ eq_refl Hrest) as (t' & rows & -> & Hrows & Hp & Hq & Hc & Hs).
    exists t', ((rowid, [db.VInt id; name; duration; description]) :: rows).
    simpl. repeat split; [|congruence| |congruence..].
    + constructor; [|done]. exists [name; duration; description].
      split; [|done]. simpl. by rewrite Hname, Hduration, Hdescription.
    + by rewrite Hq, Hq1, <- app_assoc.
Qed.

(** The loop over the conditions adds one row per condition to
    [conditions] and nothing else. *)
Lemma conditions_loop_Ok id conditions : ∀ conn t conn',
  db.pending conn = Some t →
  db.for_each (λ condition,
      _ ← db.execute db.INSERT_INTO_conditions [db.VInt id; condition];
      mret ()) conditions conn = (Ok (), conn') →
  ∃ t' rows,
    conn' = db.mkConnection (db.committed conn) (Some t') ∧
    Forall2 (λ condition row, row.2 = [db.VInt id; condition]) conditions rows ∧
    db.patients t' = db.patients t ∧
    db.problems t' = db.problems t ∧
    db.conditions t' = db.conditions t ++ rows ∧
    db.patients_seq t' = db.patients_seq t.
Proof.
  induction conditions as [|condition conditions IH]; intros conn t conn' Ht; simpl.
  - intros [= <-]. exists t, []. rewrite app_nil_r.
    destruct conn; simpl in *; subst. by repeat split.
  - intros Hrun.
    apply stexn_bind_Ok in Hrun. destruct Hrun as ([] & conn1 & Hstep & Hrest).
    apply stexn_bind_Ok in Hstep. destruct Hstep as (rowid & ? & Hinsert & [= <-]).
    apply execute_insert_Ok in Hinsert as (t1 & Hsql & ->).
    unfold db.view in Hsql. rewrite Ht in Hsql. simpl in Hsql.
    apply insert_condition_Ok in Hsql as (Hp1 & Hq1 & Hc1 & Hs1).
    destruct (IH (db.mkConnection (db.committed conn) (Some t1)) t1 _ eq_refl Hrest) as (t' & rows & -> & Hrows & Hp & Hq & Hc & Hs).
    exists t', ((rowid, [db.VInt id; condition]) :: rows).
    simpl. repeat split; [by constructor|congruence|congruence| |congruence].
    by rewrite Hc, Hc1, <- app_assoc.
Qed.

(** The statements of [create_patient] before the [commit], when all of
    them succeed, leave an open transaction that holds the tables with
    the new rows. *)
Lemma insert_patient_inserted patient_data conn id conn' :
  db.insert_patient patient_data conn = (Ok id, conn') →
  ∃ t', conn' = db.mkConnection (db.committed conn) (Some t') ∧
        patient_db.inserted patient_data id (db.view conn) t'.
Proof.
  unfold db.insert_patient. intros Hrun.
  apply stexn_bind_Ok in Hrun. destruct Hrun as (name & ? & [Hname ->]%stexn_lift_Ok & Hrun).
  apply stexn_bind_Ok in Hrun. destruct Hrun as (age & ? & [Hage ->]%stexn_lift_Ok & Hrun).
  apply stexn_bind_Ok in Hrun. destruct Hrun as (gender & ? & [Hgender ->]%stexn_lift_Ok & Hrun).
  apply stexn_bind_Ok in Hrun. destruct Hrun as (address & ? & [Haddress ->]%stexn_lift_Ok & Hrun).
  apply stexn_bind_Ok in Hrun. destruct Hrun as (identity & ? & [Hidentity ->]%stexn_lift_Ok & Hrun).
  apply stexn_bind_Ok in Hrun. destruct Hrun as (phone & ? & [Hphone ->]%stexn_lift_Ok & Hrun).
  apply stexn_bind_Ok in Hrun. destruct Hrun as (description & ? & [Hdescription ->]%stexn_lift_Ok & Hrun).
  apply stexn_bind_Ok in Hrun. destruct Hrun as (doctor & ? & [Hdoctor ->]%stexn_lift_Ok & Hrun).
  apply stexn_bind_Ok in Hrun. destruct Hrun as (patient_id & conn1 & Hinsert & Hrun).
  apply stexn_bind_Ok in Hrun. destruct Hrun as (problems & ? & [Hproblems ->]%stexn_lift_Ok & Hrun).
  apply stexn_bind_Ok in Hrun. destruct Hrun as ([] & conn2 & Hloop1 & Hrun).
  apply stexn_bind_Ok in Hrun. destruct Hrun as (conditions & ? & [Hconditions ->]%stexn_lift_Ok & Hrun).
  apply stexn_bind_Ok in Hrun. destruct Hrun as ([] & conn3 & Hloop2 & [= <- <-]).
  apply execute_insert_Ok in Hinsert as (t1 & Hsql & ->).
  apply insert_patient_row_Ok in Hsql as (Hid & Hp1 & Hq1 & Hc1 & Hs1).
  apply (problems_loop_Ok _ _ _ t1) in Hloop1 as (t2 & rows2 & -> & Hrows2 & Hp2 & Hq2 & Hc2 & Hs2);
    [|done].
  apply (conditions_loop_Ok _ _ _ t2) in Hloop2 as (t3 & rows3 & -> & Hrows3 & Hp3 & Hq3 & Hc3 & Hs3);
    [|done].
  exists t3. split; [done|].
  exists [name; age; gender; address; identity; phone; description; doctor],
    problems, conditions, rows2, rows3.
  repeat split; try done; try congruence.
  simpl. by rewrite Hname, Hage, Hgender, Haddress, Hidentity, Hphone, Hdescription, Hdoctor.
Qed.

(** A successful [create_patient] commits exactly the new rows. *)
Lemma create_patient_inserted patient_data conn id conn' :
  db.create_patient patient_data conn = (Some id, conn') →
  ∃ t', conn' = db.mkConnection t' None ∧
        patient_db.inserted patient_data id (db.view conn) t'.
Proof.
  unfold db.create_patient, db.create_patient_try, mbind, stexn_bind.
  destruct (db.insert_patient patient_data conn) as [[patient_id|e] conn1] eqn:Hrun;
    [|done].
  simpl. intros [= <- <-].
  apply insert_patient_inserted in Hrun as (t' & -> & Hins). eauto.
Qed.

(** A failed [create_patient] leaves the connection rolled back. *)
Lemma create_patient_failed patient_data conn conn' :
  db.create_patient patient_data conn = (None, conn') →
  conn' = db.rollback conn.
Proof.
  unfold db.create_patient, db.create_patient_try, mbind, stexn_bind.
  destruct (db.insert_patient patient_data conn) as [[patient_id|e] conn1] eqn:Hrun;
    [done|].
  intros [= <-]. unfold db.rollback.
  by rewrite (insert_patient_keeps_committed _ _ _ _ Hrun).
Qed.

(** *** Rows found and rows kept *)

Lemma find_app_l {A} (f : A → bool) (l l' : list A) :
  find f (l ++ l') =
    match find f l with
    | Some x => Some x
    | None => find f l'
    end.
Proof. induction l as [|x l IH]; simpl; [done|]. by destruct (f x). Qed.

Lemma find_all_false {A} (f : A → bool) (l : list A) :
  Forall (λ x, f x = false) l → find f l = None.
Proof. induction 1 as [|x l Hx _ IH]; simpl; [done|]. by rewrite Hx. Qed.

Lemma find_elem {A} (f : A → bool) (l : list A) x :
  x ∈ l → f x = true → ∃ y, find f l = Some y ∧ f y = true.
Proof.
  induction 1 as [x l|x y l _ IH]; simpl; intros Hx.
  - rewrite Hx. eauto.
  - destruct (f y) eqn:Hy; eauto.
Qed.

Lemma find_filter {A} (f g : A → bool) (l : list A) :
  (∀ x, f x = true → g x = true) →
  find f (List.filter g l) = find f l.
Proof.
  intros Hfg. induction l as [|x l IH]; simpl; [done|].
  destruct (g x) eqn:Hg; simpl.
  - by rewrite IH.
  - destruct (f x) eqn:Hf; [|done]. apply Hfg in Hf. congruence.
Qed.

Lemma filter_all_false {A} (f : A → bool) (l : list A) :
  Forall (λ x, f x = false) l → List.filter f l = [].
Proof. induction 1 as [|x l Hx _ IH]; simpl; [done|]. by rewrite Hx. Qed.

Lemma filter_all_true {A} (f : A → bool) (l : list A) :
  Forall (λ x, f x = true) l → List.filter f l = l.
Proof. induction 1 as [|x l Hx _ IH]; simpl; [done|]. by rewrite Hx, IH. Qed.

Lemma filter_filter_implies {A} (f g : A → bool) (l : list A) :
  (∀ x, f x = true → g x = true) →
  List.filter f (List.filter g l) = List.filter f l.
Proof.
  intros Hfg. induction l as [|x l IH]; simpl; [done|].
  destruct (g x) eqn:Hg; simpl.
  - by rewrite IH.
  - destruct (f x) eqn:Hf; [|done]. apply Hfg in Hf. congruence.
Qed.

Lemma filter_sublist {A} (f : A → bool) (l : list A) :
  List.filter f l `sublist_of` l.
Proof.
  induction l as [|x l IH]; simpl; [done|].
  destruct (f x); by constructor.
Qed.

Lemma elem_of_filter_bool {A} (f : A → bool) (l : list A) x :
  x ∈ List.filter f l ↔ x ∈ l ∧ f x = true.
Proof. rewrite !list_elem_of_In. apply filter_In. Qed.

(** A row refers to at most one patient. *)
Lemma references_inj id id' row :
  patient_db.references id row = true → patient_db.references id' row = true →
  id = id'.
Proof.
  unfold patient_db.references.
  destruct (patient_db.cell row 1); try done.
  intros ->%bool_decide_eq_true ->%bool_decide_eq_true. done.
Qed.

Lemma references_row id id' rowid values :
  patient_db.references id' (rowid, db.VInt id :: values) = bool_decide (id = id').
Proof. done. Qed.

Lemma bind_id_Ok patient_id :
  (- 2 ^ 63 ≤ patient_id < 2 ^ 63)%Z → patient_db.bind_id patient_id = Ok patient_id.
Proof.
  intros Hrange. unfold patient_db.bind_id. simpl.
  by rewrite decide_True.
Qed.

Lemma bind_id_Raise patient_id :
  ¬ (- 2 ^ 63 ≤ patient_id < 2 ^ 63)%Z →
  patient_db.bind_id patient_id = Raise OverflowError.
Proof.
  intros Hrange. unfold patient_db.bind_id. simpl.
  by rewrite decide_False.
Qed.

(** [select_patient] depends on what the three queries find, and on
    nothing else. *)
Lemma select_patient_ext patient_id conn conn' :
  patient_db.SELECT_patient patient_id (db.view conn') =
    patient_db.SELECT_patient patient_id (db.view conn) →
  patient_db.SELECT_problems patient_id (db.view conn') =
    patient_db.SELECT_problems patient_id (db.view conn) →
  patient_db.SELECT_conditions patient_id (db.view conn') =
    patient_db.SELECT_conditions patient_id (db.view conn) →
  patient_db.select_patient patient_id conn' =
    patient_db.select_patient patient_id conn.
Proof.
  intros Hp Hq Hc. unfold patient_db.select_patient, patient_db.select_patient_try.
  destruct (patient_db.bind_id patient_id) as [id|e] eqn:Hid; [|done]. simpl.
  unfold patient_db.bind_id in Hid.
  apply bind_Ok in Hid as (? & _ & [= <-]).
  by rewrite Hp, Hq, Hc.
Qed.

Lemma select_patient_None patient_id conn :
  patient_db.SELECT_patient patient_id (db.view conn) = None →
  patient_db.select_patient patient_id conn = None.
Proof.
  intros Hp. unfold patient_db.select_patient, patient_db.select_patient_try.
  destruct (patient_db.bind_id patient_id) as [id|e] eqn:Hid; [|done]. simpl.
  unfold patient_db.bind_id in Hid.
  apply bind_Ok in Hid as (? & _ & [= <-]).
  by rewrite Hp.
Qed.

(** What [delete_patient] does for an id that can be bound. *)
Lemma delete_patient_in_range patient_id conn :
  (- 2 ^ 63 ≤ patient_id < 2 ^ 63)%Z →
  patient_db.delete_patient patient_id conn =
    (true,
     db.mkConnection
       (patient_db.DELETE_FROM_patients patient_id
          (patient_db.DELETE_FROM_conditions patient_id
             (patient_db.DELETE_FROM_problems patient_id (db.view conn))))
       None).
Proof.
  intros Hrange.
  unfold patient_db.delete_patient, patient_db.delete_patient_try,
    patient_db.execute_delete, mbind, stexn_bind.
  by rewrite (bind_id_Ok _ Hrange).
Qed.

Lemma delete_patient_out_of_range patient_id conn :
  ¬ (- 2 ^ 63 ≤ patient_id < 2 ^ 63)%Z →
  patient_db.delete_patient patient_id conn = (false, db.rollback conn).
Proof.
  intros Hrange.
  unfold patient_db.delete_patient, patient_db.delete_patient_try,
    patient_db.execute_delete, mbind, stexn_bind.
  by rewrite (bind_id_Raise _ Hrange).
Qed.

(** *** The invariant of the tables *)

Lemma tables_ok_empty : patient_db.tables_ok db.empty_tables.
Proof.
  unfold patient_db.tables_ok, patient_db.SELECT_ids. simpl.
  repeat split; [lia|constructor..].
Qed.

Lemma new_rows_reference id {A} (P : A → list db.value → Prop)
    (items : list A) (rows : list (Z * list db.value)) :
  Forall2 (λ item row, ∃ values, P item values ∧ row.2 = db.VInt id :: values)
    items rows →
  Forall (λ row, patient_db.references id row = true) rows.
Proof.
  induction 1 as [|item [rowid cells] items rows (values & _ & Hrow) _ IH];
    constructor; [|done].
  simpl in Hrow. subst. rewrite references_row. by apply bool_decide_eq_true.
Qed.

Lemma condition_rows_reference id (items : list db.value)
    (rows : list (Z * list db.value)) :
  Forall2 (λ condition row, row.2 = [db.VInt id; condition]) items rows →
  Forall (λ row, patient_db.references id row = true) rows.
Proof.
  intros Hrows.
  apply (new_rows_reference id (λ condition values, values = [condition]) items).
  eapply Forall2_impl; [exact Hrows|]. simpl. intros condition row ->. eauto.
Qed.

Lemma tables_ok_inserted patient_data id t t' :
  patient_db.tables_ok t → patient_db.inserted patient_data id t t' →
  patient_db.tables_ok t'.
Proof.
  intros (Hseq & Hids & Hnodup & Hprob & Hcond).
  intros (fields & problems & conditions & prows & crows & _ & _ & _ &
          Hprows & Hcrows & -> & Hpat & Hpr & Hco & Hs).
  apply new_rows_reference in Hprows. apply condition_rows_reference in Hcrows.
  unfold patient_db.tables_ok, patient_db.SELECT_ids in *.
  rewrite Hpat, Hpr, Hco, Hs, fmap_app. simpl.
  assert (∀ row : Z * list db.value,
            (∃ id, patient_db.references id row = true ∧ id ∈ (db.patients t).*1) →
            ∃ id, patient_db.references id row = true ∧
                  id ∈ (db.patients t).*1 ++ [(db.patients_seq t + 1)%Z]) as Hold.
  { intros row (id & Href & Hin). exists id. split; [done|].
    apply elem_of_app. by left. }
  assert (∀ row : Z * list db.value,
            patient_db.references (db.patients_seq t + 1) row = true →
            ∃ id, patient_db.references id row = true ∧
                  id ∈ (db.patients t).*1 ++ [(db.patients_seq t + 1)%Z]) as Hnew.
  { intros row Href. exists (db.patients_seq t + 1)%Z. split; [done|].
    apply elem_of_app. right. by apply list_elem_of_singleton. }
  repeat split.
  - lia.
  - apply Forall_app. split.
    + eapply Forall_impl; [exact Hids|]. simpl. lia.
    + repeat constructor; simpl; lia.
  - apply NoDup_app. split; [done|]. split; [|apply NoDup_singleton].
    intros id Hin Hid. apply list_elem_of_singleton in Hid as ->.
    apply list_elem_of_fmap in Hin as (row & Hrow & Hin).
    rewrite Forall_forall in Hids. specialize (Hids _ Hin). lia.
  - apply Forall_app. split; eapply Forall_impl; eauto.
  - apply Forall_app. split; eapply Forall_impl; eauto.
Qed.

Lemma tables_ok_deleted patient_id t :
  patient_db.tables_ok t →
  patient_db.tables_ok
    (patient_db.DELETE_FROM_patients patient_id
       (patient_db.DELETE_FROM_conditions patient_id
          (patient_db.DELETE_FROM_problems patient_id t))).
Proof.
  intros (Hseq & Hids & Hnodup & Hprob & Hcond).
  unfold patient_db.tables_ok, patient_db.SELECT_ids in *. simpl.
  assert (∀ row : Z * list db.value,
            (∃ id, patient_db.references id row = true ∧ id ∈ (db.patients t).*1) →
            negb (patient_db.references patient_id row) = true →
            ∃ id, patient_db.references id row = true ∧
                  id ∈ (List.filter (λ row, negb (bool_decide (row.1 = patient_id)))
                          (db.patients t)).*1) as Hkept.
  { intros row (id & Href & Hin) Hother. exists id. split; [done|].
    apply list_elem_of_fmap in Hin as (prow & -> & Hin).
    apply list_elem_of_fmap. exists prow. split; [done|].
    apply elem_of_filter_bool. split; [done|].
    apply negb_true_iff, bool_decide_eq_false. intros Heq.
    rewrite Heq, negb_true_iff in *. congruence. }
  repeat split.
  - done.
  - apply Forall_forall. intros row [Hin _]%elem_of_filter_bool.
    rewrite Forall_forall in Hids. by apply Hids.
  - eapply sublist_NoDup; [exact Hnodup|]. apply fmap_sublist, filter_sublist.
  - apply Forall_forall. intros row [Hin Hother]%elem_of_filter_bool.
    rewrite Forall_forall in Hprob. eauto.
  - apply Forall_forall. intros row [Hin Hother]%elem_of_filter_bool.
    rewrite Forall_forall in Hcond. eauto.
Qed.

(** Every connection of a [PatientDatabase] that started on a new file
    has no transaction open between two calls, and its tables are well
    formed. *)
Lemma reachable_ok conn :
  patient_db.reachable conn →
  db.pending conn = None ∧ patient_db.tables_ok (db.committed conn).
Proof.
  induction 1 as [|patient_data conn _ [Hclean Hok]|patient_id conn _ [Hclean Hok]].
  - split; [done|apply tables_ok_empty].
  - destruct (db.create_patient patient_data conn) as [[id|] conn'] eqn:Hrun; simpl.
    + apply create_patient_inserted in Hrun as (t' & -> & Hins). split; [done|]. simpl.
      eapply tables_ok_inserted; [|exact Hins].
      unfold db.view. by rewrite Hclean.
    + apply create_patient_failed in Hrun as ->. done.
  - destruct (decide (- 2 ^ 63 ≤ patient_id < 2 ^ 63)%Z) as [Hrange|Hrange].
    + rewrite delete_patient_in_range by done. simpl. split; [done|].
      apply tables_ok_deleted. unfold db.view. by rewrite Hclean.
    + rewrite delete_patient_out_of_range by done. done.
Qed.

Lemma reachable_view_ok conn :
  patient_db.reachable conn → patient_db.tables_ok (db.view conn).
Proof.
  intros [Hclean Hok]%reachable_ok. unfold db.view. by rewrite Hclean.
Qed.

(** *** Reading back what was written *)

Lemma mapM_cons_Ok {A B} (f : A → result B) x y l k :
  f x = Ok y → mapM f l = Ok k → mapM f (x :: l) = Ok (y :: k).
Proof. intros Hx Hl. simpl. by rewrite Hx, Hl. Qed.

(** The rows of the problems of a new patient, as [select_patient] reads
    them. *)
Lemma problem_rows_records id problems (rows : list (Z * list db.value)) :
  Forall2 (λ problem row, ∃ values,
             mapM (db.subscript problem) patient_db.problem_columns = Ok values ∧
             row.2 = db.VInt id :: values) problems rows →
  mapM patient_db.problem_record problems =
    Ok ((λ row : db.value * db.value * db.value,
           db.VDict [("name", row.1.1); ("duration", row.1.2); ("description", row.2)]) <$>
        ((λ row, (patient_db.cell row 2, patient_db.cell row 3, patient_db.cell row 4)) <$>
         rows)).
Proof.
  induction 1 as [|problem [rowid cells] problems rows (values & Hvalues & Hrow) _ IH];
    [done|].
  simpl in Hrow. subst cells.
  unfold patient_db.problem_columns in Hvalues. simpl in Hvalues.
  apply bind_Ok in Hvalues as (name & Hname & Hvalues).
  apply bind_Ok in Hvalues as (? & Hvalues & [= <-]).
  apply bind_Ok in Hvalues as (duration & Hduration & Hvalues).
  apply bind_Ok in Hvalues as (? & Hvalues & [= <-]).
  apply bind_Ok in Hvalues as (description & Hdescription & Hvalues).
  injection Hvalues as <-.
  apply mapM_cons_Ok; [|exact IH].
  unfold patient_db.problem_record. by rewrite Hname, Hduration, Hdescription.
Qed.

Lemma condition_rows_values id conditions (rows : list (Z * list db.value)) :
  Forall2 (λ condition row, row.2 = [db.VInt id; condition]) conditions rows →
  (λ row, patient_db.cell row 2) <$> rows = conditions.
Proof.
  induction 1 as [|condition [rowid cells] conditions rows Hrow _ IH]; [done|].
  simpl in Hrow. subst cells. by rewrite fmap_cons, IH.
Qed.

(** The rows of other patients do not refer to a fresh id. *)
Lemma no_reference_to_fresh_id t id (rows : list (Z * list db.value)) :
  Forall (λ row, (0 < row.1 ≤ db.patients_seq t)%Z) (db.patients t) →
  Forall (λ row, ∃ id, patient_db.references id row = true ∧
                       id ∈ patient_db.SELECT_ids t) rows →
  (db.patients_seq t < id)%Z →
  Forall (λ row, patient_db.references id row = false) rows.
Proof.
  intros Hids Hrows Hfresh. eapply Forall_impl; [exact Hrows|]. simpl.
  intros row (id' & Href & Hin).
  destruct (patient_db.references id row) eqn:Hid; [|done].
  rewrite (references_inj _ _ _ Hid Href) in Hfresh.
  apply list_elem_of_fmap in Hin as (prow & -> & Hin).
  rewrite Forall_forall in Hids. specialize (Hids _ Hin). lia.
Qed.

Lemma select_after_inserted patient_data id t t' conn' :
  patient_db.tables_ok t →
  (db.patients_seq t < 2 ^ 63 - 1)%Z →
  patient_db.inserted patient_data id t t' →
  db.view conn' = t' →
  ∃ record,
    patient_db.patient_record patient_data id = Ok record ∧
    patient_db.select_patient id conn' = Some record.
Proof.
  intros (Hseq & Hids & Hnodup & Hprob & Hcond) Hbound.
  intros (fields & problems & conditions & prows & crows & Hfields & Hproblems &
          Hconditions & Hprows & Hcrows & -> & Hpat & Hpr & Hco & Hs) Hview.
  unfold patient_db.patient_columns in Hfields. simpl in Hfields.
  apply bind_Ok in Hfields as (name & Hname & Hfields).
  apply bind_Ok in Hfields as (? & Hfields & [= <-]).
  apply bind_Ok in Hfields as (age & Hage & Hfields).
  apply bind_Ok in Hfields as (? & Hfields & [= <-]).
  apply bind_Ok in Hfields as (gender & Hgender & Hfields).
  apply bind_Ok in Hfields as (? & Hfields & [= <-]).
  apply bind_Ok in Hfields as (address & Haddress & Hfields).
  apply bind_Ok in Hfields as (? & Hfields & [= <-]).
  apply bind_Ok in Hfields as (identity & Hidentity & Hfields).
  apply bind_Ok in Hfields as (? & Hfields & [= <-]).
  apply bind_Ok in Hfields as (phone & Hphone & Hfields).
  apply bind_Ok in Hfields as (? & Hfields & [= <-]).
  apply bind_Ok in Hfields as (description & Hdescription & Hfields).
  apply bind_Ok in Hfields as (? & Hfields & [= <-]).
  apply bind_Ok in Hfields as (doctor & Hdoctor & Hfields).
  injection Hfields as <-.
  eexists. split.
  - unfold patient_db.patient_record.
    rewrite Hname, Hage, Hgender, Haddress, Hidentity, Hphone, Hdescription, Hdoctor.
    simpl. rewrite Hproblems. simpl.
    rewrite (problem_rows_records _ _ _ Hprows). simpl.
    rewrite Hconditions. reflexivity.
  - unfold patient_db.select_patient, patient_db.select_patient_try.
    rewrite bind_id_Ok by lia. simpl. rewrite Hview.
    unfold patient_db.SELECT_patient, patient_db.SELECT_problems,
      patient_db.SELECT_conditions.
    rewrite Hpat, Hpr, Hco, find_app_l, !List.filter_app.
    rewrite find_all_false; last first.
    { eapply Forall_impl; [exact Hids|]. simpl. intros row Hrow.
      apply bool_decide_eq_false. lia. }
    cbn [find fst]. rewrite bool_decide_eq_true_2 by done.
    rewrite (filter_all_false _ (db.problems t))
      by (apply (no_reference_to_fresh_id t); [done..|lia]).
    rewrite (filter_all_false _ (db.conditions t))
      by (apply (no_reference_to_fresh_id t); [done..|lia]).
    pose proof Hprows as Hpref. apply new_rows_reference in Hpref.
    pose proof Hcrows as Hcref. apply condition_rows_reference in Hcref.
    rewrite (filter_all_true _ prows), (filter_all_true _ crows) by done.
    rewrite !app_nil_l, (condition_rows_values _ _ _ Hcrows). reflexivity.
Qed.

(** Round trip: in a database built by [create_patient] and
    [delete_patient] calls, with the id counter below its last value,
    [select_patient] on the id that a successful [create_patient]
    returned gives back the patient's eight fields, the three fields of
    each of its problems and its conditions, in their order, under that
    id.  The values are of the types of their columns, so that the engine
    stores them unconverted. *)
Theorem select_after_create patient_data conn id conn' :
  patient_db.reachable conn →
  (db.patients_seq (db.view conn) < 2 ^ 63 - 1)%Z →
  patient_db.column_typed patient_data = true →
  db.create_patient patient_data conn = (Some id, conn') →
  ∃ record,
    patient_db.patient_record patient_data id = Ok record ∧
    patient_db.select_patient id conn' = Some record.
Proof.
  intros Hreach Hbound _ Hrun.
  apply create_patient_inserted in Hrun as (t' & -> & Hins).
  eapply select_after_inserted; [|exact Hbound|exact Hins|done].
  by apply reachable_view_ok.
Qed.

Lemma select_after_create_witness :
  ∃ conn',
    db.create_patient db.good_patient (db.mkConnection db.empty_tables None) =
      (Some 1%Z, conn') ∧
    ∃ record,
      patient_db.patient_record db.good_patient 1 = Ok record ∧
      patient_db.select_patient 1 conn' = Some record.
Proof.
  eexists. split; [vm_compute; reflexivity|].
  apply (select_after_create db.good_patient (db.mkConnection db.empty_tables None)).
  - apply patient_db.reach_new.
  - vm_compute. reflexivity.
  - vm_compute. reflexivity.
  - vm_compute. reflexivity.
Defined.

(** *** Calls that leave other patients alone *)

Lemma view_clean (t : db.tables) : db.view (db.mkConnection t None) = t.
Proof. done. Qed.

(** Unless [create_patient] returned the id [other], what
    [select_patient other] gives is the same before and after the call,
    whether the call succeeded or failed. *)
Theorem create_patient_keeps_other_patients patient_data conn r conn' other :
  db.pending conn = None →
  db.create_patient patient_data conn = (r, conn') →
  r ≠ Some other →
  patient_db.select_patient other conn' = patient_db.select_patient other conn.
Proof.
  intros Hclean Hrun Hother. destruct r as [id|].
  - apply create_patient_inserted in Hrun
      as (t' & -> & fields & problems & conditions & prows & crows & _ & _ & _ &
          Hprows & Hcrows & _ & Hpat & Hpr & Hco & _).
    assert (id ≠ other) as Hid by congruence.
    apply new_rows_reference in Hprows. apply condition_rows_reference in Hcrows.
    assert (∀ rows : list (Z * list db.value),
              Forall (λ row, patient_db.references id row = true) rows →
              List.filter (patient_db.references other) rows = []) as Hnone.
    { intros rows Hrows. apply filter_all_false.
      eapply Forall_impl; [exact Hrows|]. simpl. intros row Href.
      destruct (patient_db.references other row) eqn:Hrow; [|done].
      by destruct (Hid (references_inj _ _ _ Href Hrow)). }
    apply select_patient_ext; rewrite view_clean.
    + unfold patient_db.SELECT_patient. rewrite Hpat, find_app_l.
      destruct (find _ (db.patients (db.view conn))); [done|].
      cbn [find fst]. by rewrite bool_decide_eq_false_2.
    + unfold patient_db.SELECT_problems.
      by rewrite Hpr, List.filter_app, (Hnone prows), app_nil_r.
    + unfold patient_db.SELECT_conditions.
      by rewrite Hco, List.filter_app, (Hnone crows), app_nil_r.
  - apply create_patient_failed in Hrun as ->.
    destruct conn as [disk open]. simpl in *. by subst.
Qed.

Lemma create_patient_keeps_other_patients_witness :
  patient_db.select_patient 1
    (db.create_patient db.good_patient
       (db.create_patient db.good_patient
          (db.mkConnection db.empty_tables None)).2).2 =
  patient_db.select_patient 1
    (db.create_patient db.good_patient (db.mkConnection db.empty_tables None)).2.
Proof.
  apply (create_patient_keeps_other_patients db.good_patient _ (Some 2%Z)).
  - vm_compute. reflexivity.
  - vm_compute. reflexivity.
  - discriminate.
Defined.

(** After [delete_patient] for an id that can be bound, [select_patient]
    finds nothing under that id, and gives for every other id what it
    gave before. *)
Theorem delete_then_select patient_id conn :
  (- 2 ^ 63 ≤ patient_id < 2 ^ 63)%Z →
  let conn' := (patient_db.delete_patient patient_id conn).2 in
  (patient_db.delete_patient patient_id conn).1 = true ∧
  db.pending conn' = None ∧
  patient_db.select_patient patient_id conn' = None ∧
  ∀ other, other ≠ patient_id →
    patient_db.select_patient other conn' = patient_db.select_patient other conn.
Proof.
  intros Hrange. rewrite delete_patient_in_range by done. simpl.
  repeat split.
  - apply select_patient_None. rewrite view_clean.
    unfold patient_db.SELECT_patient. simpl.
    apply find_all_false, Forall_forall.
    intros row [_ Hrow]%elem_of_filter_bool.
    by apply negb_true_iff in Hrow.
  - intros other Hother.
    assert (∀ row : Z * list db.value,
              patient_db.references other row = true →
              negb (patient_db.references patient_id row) = true) as Href.
    { intros row Hrow. apply negb_true_iff.
      destruct (patient_db.references patient_id row) eqn:Hrow'; [|done].
      by destruct (Hother (references_inj _ _ _ Hrow Hrow')). }
    apply select_patient_ext; rewrite view_clean.
    + unfold patient_db.SELECT_patient. simpl. apply find_filter.
      intros row ->%bool_decide_eq_true.
      by apply negb_true_iff, bool_decide_eq_false.
    + unfold patient_db.SELECT_problems. simpl.
      by rewrite filter_filter_implies.
    + unfold patient_db.SELECT_conditions. simpl.
      by rewrite filter_filter_implies.
Qed.

Lemma delete_then_select_witness :
  patient_db.select_patient 1
    (patient_db.delete_patient 1
       (db.create_patient db.good_patient
          (db.mkConnection db.empty_tables None)).2).2 = None.
Proof.
  refine (proj1 (proj2 (proj2 (delete_then_select 1 _ _)))).
  lia.
Defined.



(** An id that does not fit into 64 bits cannot be bound: the exception
    is caught, [select_patient] answers [None] and [delete_patient]
    answers [False] after a rollback. *)
Theorem out_of_range_id patient_id conn :
  ¬ (- 2 ^ 63 ≤ patient_id < 2 ^ 63)%Z →
  patient_db.select_patient patient_id conn = None ∧
  patient_db.delete_patient patient_id conn = (false, db.rollback conn).
Proof.
  intros Hrange. split; [|by apply delete_patient_out_of_range].
  unfold patient_db.select_patient, patient_db.select_patient_try.
  by rewrite bind_id_Raise.
Qed.

Lemma out_of_range_id_witness :
  patient_db.select_patient (2 ^ 63) (db.mkConnection db.empty_tables None) = None.
Proof.
  refine (proj1 (out_of_range_id (2 ^ 63) _ _)).
  lia.
Defined.

(** *** Ids *)

(** An id is never handed out twice: the id that [create_patient]
    returns after a [delete_patient] is none of the ids that were in the
    table before the deletion, the deleted one included. *)
Theorem patient_ids_never_reused conn patient_id old_id patient_data id conn' :
  patient_db.reachable conn →
  old_id ∈ patient_db.SELECT_ids (db.view conn) →
  db.create_patient patient_data (patient_db.delete_patient patient_id conn).2 =
    (Some id, conn') →
  id ≠ old_id.
Proof.
  intros Hreach Hold Hrun.
  destruct (reachable_ok _ Hreach) as [Hclean (_ & Hids & _)].
  apply create_patient_inserted in Hrun
    as (t' & _ & ? & ? & ? & ? & ? & _ & _ & _ & _ & _ & Hid & _).
  assert (db.patients_seq (db.view (patient_db.delete_patient patient_id conn).2) =
          db.patients_seq (db.committed conn)) as Hseq.
  { destruct (decide (- 2 ^ 63 ≤ patient_id < 2 ^ 63)%Z) as [Hrange|Hrange].
    - rewrite delete_patient_in_range by done. unfold db.view. simpl.
      by rewrite Hclean.
    - rewrite delete_patient_out_of_range by done. done. }
  rewrite Hseq in Hid. unfold db.view in Hold. rewrite Hclean in Hold. simpl in Hold.
  apply list_elem_of_fmap in Hold as (row & -> & Hin).
  rewrite Forall_forall in Hids. specialize (Hids _ Hin). lia.
Qed.

Lemma patient_ids_never_reused_witness :
  (2 : Z) ≠ 1%Z.
Proof.
  eapply (patient_ids_never_reused
            (db.create_patient db.good_patient (db.mkConnection db.empty_tables None)).2
            1 1 db.good_patient 2).
  - apply patient_db.reach_create, patient_db.reach_new.
  - vm_compute. left.
  - vm_compute. reflexivity.
Defined.

(** *** All patients *)

Lemma select_patient_found patient_id conn row :
  (- 2 ^ 63 ≤ patient_id < 2 ^ 63)%Z →
  patient_db.SELECT_patient patient_id (db.view conn) = Some row →
  ∃ rest,
    patient_db.select_patient patient_id conn = Some (("id", db.VInt row.1) :: rest).
Proof.
  intros Hrange Hrow. unfold patient_db.select_patient, patient_db.select_patient_try.
  rewrite bind_id_Ok by done. simpl. rewrite Hrow. simpl. eauto.
Qed.

(** In a database built by [create_patient] and [delete_patient] calls,
    with the id counter within 64 bits, [select_all_patients] gives one
    dictionary per row of [patients], in the order of the rows, each
    being what [select_patient] gives for the row's id. *)
Theorem select_all_lists_every_patient conn :
  patient_db.reachable conn →
  (db.patients_seq (db.view conn) < 2 ^ 63)%Z →
  Forall2 (λ row patient_data,
             patient_db.select_patient row.1 conn = Some patient_data ∧
             db.dict_lookup patient_data "id" = Some (db.VInt row.1))
    (db.patients (db.view conn)) (patient_db.select_all_patients conn).
Proof.
  intros Hreach Hbound.
  destruct (reachable_view_ok _ Hreach) as (_ & Hids & _).
  unfold patient_db.select_all_patients, patient_db.SELECT_ids.
  assert (∀ rows : list (Z * list db.value),
            rows ⊆ db.patients (db.view conn) →
            Forall2 (λ row patient_data,
                       patient_db.select_patient row.1 conn = Some patient_data ∧
                       db.dict_lookup patient_data "id" = Some (db.VInt row.1))
              rows
              (rows.*1 ≫= λ patient_id,
                 let patient_data := patient_db.select_patient patient_id conn in
                 if patient_db.truthy patient_data
                 then option_list patient_data else [])) as Hall;
    [|by apply Hall].
  induction rows as [|row rows IH]; intros Hsub; [constructor|].
  rewrite fmap_cons, bind_cons.
  assert (row ∈ db.patients (db.view conn)) as Hin by (apply Hsub; left).
  rewrite Forall_forall in Hids. pose proof (Hids _ Hin) as Hrow.
  destruct (find_elem (λ r : Z * list db.value, bool_decide (r.1 = row.1)) _ _ Hin)
    as (found & Hfind & Hfound); [by apply bool_decide_eq_true|].
  apply bool_decide_eq_true in Hfound.
  destruct (select_patient_found row.1 conn found) as (rest & Hsel); [lia|done|].
  cbv zeta. rewrite Hsel. simpl. constructor.
  - rewrite Hfound in *. by split.
  - apply IH. intros x Hx. apply Hsub. by right.
Qed.

Lemma select_all_lists_every_patient_witness :
  length (patient_db.select_all_patients
            (db.create_patient db.good_patient
               (db.mkConnection db.empty_tables None)).2) = 1.
Proof.
  pose proof (select_all_lists_every_patient
                (db.create_patient db.good_patient
                   (db.mkConnection db.empty_tables None)).2
                (patient_db.reach_create _ _ patient_db.reach_new)) as Hall.
  apply Forall2_length in Hall; [|vm_compute; reflexivity].
  rewrite <- Hall. vm_compute. reflexivity.
Defined.

(** *** The invariant *)

(** Whatever sequence of [create_patient] and [delete_patient] calls a
    [PatientDatabase] on a new file has seen, no transaction is left
    open, every patient id is positive and at most the [AUTOINCREMENT]
    counter, no id occurs twice, and every problem and every condition
    belongs to a patient that is in the table. *)
Theorem store_invariant conn :
  patient_db.reachable conn →
  db.pending conn = None ∧ patient_db.tables_ok (db.view conn).
Proof.
  intros Hreach. split; [by apply reachable_ok|by apply reachable_view_ok].
Qed.

Lemma store_invariant_witness :
  db.pending (patient_db.delete_patient 1
                (db.create_patient db.bad_patient
                   (db.mkConnection db.empty_tables None)).2).2 = None.
Proof.
  refine (proj1 (store_invariant _ _)).
  apply patient_db.reach_delete, patient_db.reach_create, patient_db.reach_new.
Defined.

(** *** Incomplete and odd patient data *)

Section MissingField.
Context {DB : Type} `{!db.Engine DB}.

Lemma create_patient_raised patient_data (conn : db.connection DB) e conn' :
  db.insert_patient patient_data conn = (Raise e, conn') →
  db.create_patient patient_data conn = (None, db.rollback conn).
Proof.
  intros Hrun.
  unfold db.create_patient, db.create_patient_try, mbind, stexn_bind.
  rewrite Hrun. unfold db.rollback.
  by rewrite (insert_patient_keeps_committed _ _ _ _ Hrun).
Qed.

(** Each of the eight fields of a patient is required: when one of them
    is missing from [patient_data], [create_patient] returns [None], the
    [KeyError] having been raised before any statement ran, and the
    connection is rolled back.  This holds for any SQL engine. *)
Theorem create_patient_missing_field patient_data (conn : db.connection DB) key :
  key ∈ patient_db.patient_columns →
  db.dict_lookup patient_data key = None →
  db.create_patient patient_data conn = (None, db.rollback conn) ∧
  ∃ missing, db.insert_patient patient_data conn = (Raise (KeyError missing), conn).
Proof.
  intros Hkey Hmissing.
  assert (∃ missing,
            db.insert_patient patient_data conn = (Raise (KeyError missing), conn))
    as [missing Hrun].
  { unfold db.insert_patient, mbind, stexn_bind, lift_result, db.getitem.
    destruct (db.dict_lookup patient_data "name") eqn:H1; [|by eexists].
    destruct (db.dict_lookup patient_data "age") eqn:H2; [|by eexists].
    destruct (db.dict_lookup patient_data "gender") eqn:H3; [|by eexists].
    destruct (db.dict_lookup patient_data "address") eqn:H4; [|by eexists].
    destruct (db.dict_lookup patient_data "identity") eqn:H5; [|by eexists].
    destruct (db.dict_lookup patient_data "phone") eqn:H6; [|by eexists].
    destruct (db.dict_lookup patient_data "description") eqn:H7; [|by eexists].
    destruct (db.dict_lookup patient_data "recommended_doctor") eqn:H8; [|by eexists].
    unfold patient_db.patient_columns in Hkey.
    repeat (apply elem_of_cons in Hkey as [->|Hkey]; [congruence|]).
    by apply elem_of_nil in Hkey. }
  split; [by eapply create_patient_raised|eauto].
Qed.

End MissingField.

Lemma create_patient_missing_field_witness :
  db.create_patient [("name", db.VStr "Ann")] (db.mkConnection db.empty_tables None) =
    (None, db.mkConnection db.empty_tables None).
Proof.
  refine (proj1 (create_patient_missing_field [("name", db.VStr "Ann")]
                   (db.mkConnection db.empty_tables None) "age" _ _)).
  - unfold patient_db.patient_columns. set_solver.
  - reflexivity.
Defined.

(** Python iterates over a string character by character: when
    [patient_data["conditions"]] is a string instead of a list of
    strings, a successful [create_patient] stores one condition per
    character, and [select_patient] gives them back that way. *)
Theorem string_conditions_are_split patient_data conn id conn' text :
  patient_db.reachable conn →
  (db.patients_seq (db.view conn) < 2 ^ 63 - 1)%Z →
  db.dict_lookup patient_data "conditions" = Some (db.VStr text) →
  db.create_patient patient_data conn = (Some id, conn') →
  ∃ record,
    patient_db.select_patient id conn' = Some record ∧
    db.dict_lookup record "conditions" =
      Some (db.VList ((λ c, db.VStr (String c "")) <$> chars text)).
Proof.
  intros Hreach Hbound Htext Hrun.
  apply create_patient_inserted in Hrun as (t' & -> & Hins).
  destruct (select_after_inserted patient_data id (db.view conn) t'
              (db.mkConnection t' None)) as (record & Hrecord & Hselect);
    [by apply reachable_view_ok|done..|].
  exists record. split; [done|].
  unfold patient_db.patient_record in Hrecord.
  do 10 (apply bind_Ok in Hrecord as (? & _ & Hrecord)).
  unfold db.get_or_empty in Hrecord. rewrite Htext in Hrecord. simpl in Hrecord.
  by injection Hrecord as <-.
Qed.

Lemma string_conditions_are_split_witness :
  ∃ record,
    patient_db.select_patient 1
      (db.create_patient
         (("conditions", db.VStr "flu") :: db.sample_patient [])
         (db.mkConnection db.empty_tables None)).2 = Some record ∧
    db.dict_lookup record "conditions" =
      Some (db.VList [db.VStr "f"; db.VStr "l"; db.VStr "u"]).
Proof.
  apply (string_conditions_are_split
           (("conditions", db.VStr "flu") :: db.sample_patient [])
           (db.mkConnection db.empty_tables None) 1 _ "flu").
  - apply patient_db.reach_new.
  - vm_compute. reflexivity.
  - reflexivity.
  - vm_compute. reflexivity.
Defined.
